(** * tflint-plugin-sdk: the plugin-side RPC client (tflint/client.go)

    A shallow embedding of [tflint/client.go] and the properties of its
    four operations: [WalkResourceAttributes], [EvaluateExpr], [EmitIssue]
    and [EnsureNoError], together with the unexported [parseExpression].

    Go values are modelled as follows.
    - [int] is [Z]; [string] is [string] (a sequence of bytes, as in Go);
      [[]byte] is [list byte].
    - an [error] interface value is [option error]: [None] is the nil
      interface, [Some e] carries the dynamic type and the value.
    - a function that may panic, read a file, log, or talk to the host is a
      computation of the monad [M] over [State], whose result is an
      [Outcome]: either it returned, or it panicked.
    - a [Client] holds nothing but its connection, and the world has one
      connection, to one host: the receiver [c] of the methods is left
      out, and [c.rpcClient.Call] talks to the host of the world. *)

From Stdlib Require Import ZArith List String Ascii Bool Lia.
From Stdlib.Strings Require Import Byte.
From Stdlib Require Import DecimalString.
Import ListNotations.

Local Open Scope string_scope.
Local Open Scope list_scope.
Local Open Scope Z_scope.

(** ** Package strings *)

Module strings.

(** [strings.HasSuffix(s, suffix)]:
    [len(s) >= len(suffix) && s[len(s)-len(suffix):] == suffix]. *)
Definition HasSuffix (s suffix : string) : bool :=
  (String.length suffix <=? String.length s)%nat &&
  String.eqb
    (String.substring (String.length s - String.length suffix)
                      (String.length suffix) s)
    suffix.

End strings.

(** ** Package hcl (github.com/hashicorp/hcl/v2)

    Only the declarations the client touches.  They belong to the hcl
    library, not to this repository; the data declarations mirror the
    library's, and the opaque ones (expressions, parsers) are parameters
    further down. *)

Module hcl.

(** [hcl.Pos] *)
Record Pos : Type := mkPos
  { Line : Z;
    Column : Z;
    Byte : Z }.

(** [hcl.Range] *)
Record Range : Type := mkRange
  { Filename : string;
    Start : Pos;
    End : Pos }.

(** [b[lo:hi]] for [0 <= lo <= hi <= len(b)]. *)
Definition slice (b : list byte) (lo hi : Z) : list byte :=
  firstn (Z.to_nat (hi - lo)) (skipn (Z.to_nat lo) b).

(** [hcl.Range.SliceBytes]: the sub-slice of [b] covered by the range; byte
    offsets outside of [b] are clamped to it, so the call never panics. *)
Definition SliceBytes (r : Range) (b : list byte) : list byte :=
  let len := Z.of_nat (List.length b) in
  let start := Byte (Start r) in
  let end_ := Byte (End r) in
  let start := if start <? 0 then 0 else if start >? len then len else start in
  let end_ := if end_ <? 0 then 0 else if end_ >? len then len else end_ in
  let end_ := if end_ <? start then start else end_ in
  slice b start end_.

(** [hcl.DiagnosticSeverity] *)
Inductive DiagnosticSeverity : Type :=
  | DiagInvalid
  | DiagError
  | DiagWarning.

(** [hcl.Diagnostic], without the fields that point into the syntax tree. *)
Record Diagnostic : Type := mkDiagnostic
  { Severity : DiagnosticSeverity;
    Summary : string;
    Detail : string;
    Subject : option Range }.

(** [hcl.Diagnostics] *)
Definition Diagnostics : Type := list Diagnostic.

Definition is_DiagError (s : DiagnosticSeverity) : bool :=
  match s with DiagError => true | _ => false end.

(** [hcl.Diagnostics.HasErrors]: some diagnostic has severity [DiagError]. *)
Definition HasErrors (d : Diagnostics) : bool :=
  existsb (fun diag => is_DiagError (Severity diag)) d.

End hcl.

(** ** Errors

    [Error] is the struct [tflint.Error].  It is declared in errors.go; its
    fields are the four of the composite literal in [EvaluateExpr]: [Code],
    [Level], [Message], [Cause], the first two integers.  An [error]
    interface value remembers its dynamic type: the struct itself, a
    pointer to it, [hcl.Diagnostics], or some type the client knows nothing
    about. *)

Inductive error : Type :=
  | ErrorValue (e : Error)
      (* dynamic type [Error] *)
  | ErrorPointer (p : option Error)
      (* dynamic type [*Error]; [None] is the nil pointer *)
  | DiagnosticsError (d : hcl.Diagnostics)
      (* dynamic type [hcl.Diagnostics] *)
  | ForeignError (description : string)
      (* any other dynamic type: [*os.PathError], [rpc.ServerError], ... *)
with Error : Type :=
  | mkError (Code : Z) (Level : Z) (Message : string) (Cause : option error).

Definition Code (e : Error) : Z := let 'mkError c _ _ _ := e in c.
Definition Level (e : Error) : Z := let 'mkError _ l _ _ := e in l.
Definition Message (e : Error) : string := let 'mkError _ _ m _ := e in m.
Definition Cause (e : Error) : option error := let 'mkError _ _ _ c := e in c.

(** [interface{}], as far as the client can tell such values apart: the
    reply slot that [EmitIssue] hands to the transport has this type. *)
Inductive interface : Type :=
  | nil_interface
  | error_in_interface (e : error)
  | other_in_interface (description : string).

(** The value handed to [panic]. *)
Inductive PanicValue : Type :=
  | PanicString (s : string)
  | PanicError (e : error).

(** [fmt.Sprintf("%d", n)] for an [int]. *)
Definition itoa (n : Z) : string := NilZero.string_of_int (Z.to_int n).

(** ** Types the client only passes around

    None of them is declared in client.go: [hcl.Expression] and [cty.Value]
    come from libraries, [Rule] and [RuleObject] from rule.go, the
    destination of an evaluation is whatever pointer the caller hands in as
    [ret interface{}].  [Host] is the state of the process at the far end of
    the connection, [Memory] the plugin's own heap (what [ret] points into,
    what the callbacks close over). *)

Class Types : Type :=
  { Expression : Type;
    Value : Type;
    Dest : Type;
    Rule : Type;
    RuleObject : Type;
    Host : Type;
    Memory : Type }.

Section Model.

Context {T : Types}.

(** [hcl.Attribute] *)
Record hcl_Attribute : Type := mk_hcl_Attribute
  { hcl_Name : string;
    hcl_Expr : Expression;
    hcl_Range : hcl.Range;
    hcl_NameRange : hcl.Range }.

(** ** Wire types (client.go) *)

Record AttributesRequest : Type := mkAttributesRequest
  { Resource : string;
    AttributeName : string }.

(** [Attribute]: an [hcl.Attribute] whose expression travels as bytes. *)
Record Attribute : Type := mkAttribute
  { Attribute_Name : string;
    Attribute_Expr : list byte;
    Attribute_ExprRange : hcl.Range;
    Attribute_Range : hcl.Range;
    Attribute_NameRange : hcl.Range }.

(** [Attributes] is a [[]*Attribute]; the transport never delivers a nil
    element, so the elements are the structs themselves. *)
Record AttributesResponse : Type := mkAttributesResponse
  { Attributes : list Attribute;
    AttributesResponse_Err : option error }.

Record EvalExprRequest : Type := mkEvalExprRequest
  { EvalExprRequest_Expr : list byte;
    EvalExprRequest_ExprRange : hcl.Range;
    Ret : Dest }.

Record EvalExprResponse : Type := mkEvalExprResponse
  { Val : Value;
    EvalExprResponse_Err : option error }.

Record EmitIssueRequest : Type := mkEmitIssueRequest
  { EmitIssueRequest_Rule : RuleObject;
    EmitIssueRequest_Message : string;
    EmitIssueRequest_Location : hcl.Range;
    EmitIssueRequest_Expr : list byte;
    EmitIssueRequest_ExprRange : hcl.Range }.

(** [Metadata] (declared next to [Rule]): the expression an issue is about. *)
Record Metadata : Type := mkMetadata
  { Metadata_Expr : Expression }.

(** The arguments of an RPC call, by service method. *)
Inductive Request : Type :=
  | AttributesArgs (req : AttributesRequest)
  | EvalExprArgs (req : EvalExprRequest)
  | EmitIssueArgs (req : EmitIssueRequest).

(** ** The world outside the client *)

(** What the plugin process can reach: the file system (as [ioutil.ReadFile]
    sees it), the host behind the connection, and its own memory. *)
Record World : Type := mkWorld
  { files : string -> list byte + error;
    host : Host;
    memory : Memory }.

(** How a call of a caller-supplied function ends. *)
Inductive Completion : Type :=
  | Returns (err : option error)
  | Panics (v : PanicValue).

(** A caller-supplied [func() error]: it may do anything to the world. *)
Definition Callback : Type := World -> Completion * World.

(** What the client itself does, in the order it does it. *)
Inductive Event : Type :=
  | Logged (line : string)
  | FileRead (filename : string)
  | Called (serviceMethod : string) (args : Request)
  | Converted (val : Value) (ret : Dest)
  | WalkerCalled (attr : hcl_Attribute) (c : Completion)
  | ProcCalled (c : Completion).

Record State : Type := mkState
  { world : World;
    trace : list Event }.

Inductive Outcome (A : Type) : Type :=
  | Returned (a : A) (s : State)
  | Panicked (v : PanicValue) (s : State).
Arguments Returned {A} a s.
Arguments Panicked {A} v s.

(** ** The monad of client code *)

Definition M (A : Type) : Type := State -> Outcome A.

Definition ret {A} (a : A) : M A := fun s => Returned a s.

Definition bind {A B} (m : M A) (k : A -> M B) : M B :=
  fun s =>
    match m s with
    | Returned a s' => k a s'
    | Panicked v s' => Panicked v s'
    end.

Definition panic {A} (v : PanicValue) : M A := fun s => Panicked v s.

Definition record (ev : Event) (s : State) : State :=
  {| world := world s; trace := trace s ++ [ev] |}.

Definition emit (ev : Event) : M unit := fun s => Returned tt (record ev s).

End Model.

Arguments Returned {T A} a s.
Arguments Panicked {T A} v s.

Notation "x <- m ;; k" := (bind m (fun x => k))
  (at level 61, m at next level, right associativity).
Notation "' pat <- m ;; k" := (bind m (fun x => match x with pat => k end))
  (at level 61, pat pattern, m at next level, right associativity).
Notation "m ;; k" := (bind m (fun _ => k))
  (at level 61, right associativity).

(** ** Functions the client calls but does not define

    The parsers and the value conversion are library functions, taken as
    pure functions of their arguments; [newObjectFromRule], the [Error]
    method of [Error] and the code and level constants are declared in
    rule.go and errors.go.  The three [Plugin_*] functions are the host's
    handlers as seen through [rpc.Client.Call]: the error [Call] returns and
    what it leaves in the reply. *)

Class External {T : Types} : Type :=
  { Expression_Range : Expression -> hcl.Range;
    hclsyntax_ParseExpression :
      list byte -> string -> hcl.Pos -> Expression * hcl.Diagnostics;
    json_ParseExpression :
      list byte -> string -> hcl.Pos -> Expression * hcl.Diagnostics;
    gocty_FromCtyValue : Value -> Dest -> Memory -> option error * Memory;
    newObjectFromRule : Rule -> RuleObject;
    Error_Error : Error -> string;
    TypeMismatchError : Z;
    ErrorLevel : Z;
    WarningLevel : Z;
    Plugin_Attributes :
      AttributesRequest -> Host -> option error * AttributesResponse * Host;
    Plugin_EvalExpr :
      EvalExprRequest -> Host -> option error * EvalExprResponse * Host;
    Plugin_EmitIssue :
      EmitIssueRequest -> Host -> option error * interface * Host }.

Section Client.

Context {T : Types} {X : External}.

(** *** Primitive actions *)

(** [log.Printf] *)
Definition log_Printf (line : string) : M unit := emit (Logged line).

(** [ioutil.ReadFile] *)
Definition ioutil_ReadFile (filename : string) : M (list byte + error) :=
  fun s => Returned (files (world s) filename) (record (FileRead filename) s).

(** [c.rpcClient.Call(serviceMethod, args, &reply)], for a handler
    [handler] of the host: the pair of the returned error and the reply. *)
Definition rpcClient_Call {Req Reply : Type}
    (serviceMethod : string) (wrap : Req -> Request)
    (handler : Req -> Host -> option error * Reply * Host)
    (args : Req) : M (option error * Reply) :=
  fun s =>
    let '(err, reply, h) := handler args (host (world s)) in
    Returned (err, reply)
      (record (Called serviceMethod (wrap args))
         {| world := {| files := files (world s);
                        host := h;
                        memory := memory (world s) |};
            trace := trace s |}).

(** [gocty.FromCtyValue(val, ret)]: writes through [ret]. *)
Definition FromCtyValue (val : Value) (ret_ : Dest) : M (option error) :=
  fun s =>
    let '(err, m) := gocty_FromCtyValue val ret_ (memory (world s)) in
    Returned err
      (record (Converted val ret_)
         {| world := {| files := files (world s);
                        host := host (world s);
                        memory := m |};
            trace := trace s |}).

(** Running a caller-supplied function and recording how it ended. *)
Definition call (f : Callback) (ev : Completion -> Event) : M (option error) :=
  fun s =>
    let '(c, w) := f (world s) in
    let s' := record (ev c) {| world := w; trace := trace s |} in
    match c with
    | Returns err => Returned err s'
    | Panics v => Panicked v s'
    end.

(** *** parseExpression *)

Definition parseExpression (src : list byte) (filename : string)
    (start : hcl.Pos) : M (Expression * hcl.Diagnostics) :=
  if strings.HasSuffix filename ".tf" then
    ret (hclsyntax_ParseExpression src filename start)
  else if strings.HasSuffix filename ".tf.json" then
    ret (json_ParseExpression src filename start)
  else
    panic (PanicString ("Unexpected file: " ++ filename)%string).

(** *** WalkResourceAttributes *)

(** The body of [for _, attribute := range response.Attributes]. *)
Fixpoint walk (walker : hcl_Attribute -> Callback)
    (attributes : list Attribute) : M (option error) :=
  match attributes with
  | [] => ret None
  | attribute :: rest =>
      '(expr, diags) <-
        parseExpression (Attribute_Expr attribute)
          (hcl.Filename (Attribute_ExprRange attribute))
          (hcl.Start (Attribute_ExprRange attribute)) ;;
      if hcl.HasErrors diags then ret (Some (DiagnosticsError diags))
      else
        let attr :=
          {| hcl_Name := Attribute_Name attribute;
             hcl_Expr := expr;
             hcl_Range := Attribute_Range attribute;
             hcl_NameRange := Attribute_NameRange attribute |} in
        err <- call (walker attr) (WalkerCalled attr) ;;
        match err with
        | Some e => ret (Some e)
        | None => walk walker rest
        end
  end.

Definition WalkResourceAttributes (resource attributeName : string)
    (walker : hcl_Attribute -> Callback) : M (option error) :=
  log_Printf ("[DEBUG] Walk `" ++ resource ++ ".*." ++ attributeName
              ++ "` attribute")%string ;;
  '(err, response) <-
    rpcClient_Call "Plugin.Attributes" AttributesArgs Plugin_Attributes
      {| Resource := resource; AttributeName := attributeName |} ;;
  match err with
  | Some e => ret (Some e)
  | None =>
      match AttributesResponse_Err response with
      | Some e => ret (Some e)
      | None => walk walker (Attributes response)
      end
  end.

(** *** EvaluateExpr *)

Definition EvaluateExpr (expr : Expression) (ret_ : Dest) : M (option error) :=
  r <- ioutil_ReadFile (hcl.Filename (Expression_Range expr)) ;;
  match r with
  | inr e => ret (Some e)
  | inl src =>
      let req :=
        {| EvalExprRequest_Expr := hcl.SliceBytes (Expression_Range expr) src;
           EvalExprRequest_ExprRange := Expression_Range expr;
           Ret := ret_ |} in
      '(err, response) <-
        rpcClient_Call "Plugin.EvalExpr" EvalExprArgs Plugin_EvalExpr req ;;
      match err with
      | Some e => ret (Some e)
      | None =>
          match EvalExprResponse_Err response with
          | Some e => ret (Some e)
          | None =>
              err <- FromCtyValue (Val response) ret_ ;;
              match err with
              | Some cause =>
                  let err :=
                    mkError TypeMismatchError ErrorLevel
                      ("Invalid type expression in "
                       ++ hcl.Filename (Expression_Range expr) ++ ":"
                       ++ itoa (hcl.Line (hcl.Start (Expression_Range expr))))%string
                      (Some cause) in
                  log_Printf ("[ERROR] " ++ Error_Error err)%string ;;
                  ret (Some (ErrorPointer (Some err)))
              | None => ret None
              end
          end
      end
  end.

(** *** EmitIssue *)

Definition EmitIssue (rule : Rule) (message : string) (location : hcl.Range)
    (meta : Metadata) : M (option error) :=
  r <- ioutil_ReadFile (hcl.Filename (Expression_Range (Metadata_Expr meta))) ;;
  match r with
  | inr e => ret (Some e)
  | inl src =>
      let req :=
        {| EmitIssueRequest_Rule := newObjectFromRule rule;
           EmitIssueRequest_Message := message;
           EmitIssueRequest_Location := location;
           EmitIssueRequest_Expr :=
             hcl.SliceBytes (Expression_Range (Metadata_Expr meta)) src;
           EmitIssueRequest_ExprRange :=
             Expression_Range (Metadata_Expr meta) |} in
      '(err, _) <-
        rpcClient_Call "Plugin.EmitIssue" EmitIssueArgs Plugin_EmitIssue req ;;
      match err with
      | Some e => ret (Some e)
      | None => ret None
      end
  end.

(** *** EnsureNoError *)

Definition EnsureNoError (err : option error) (proc : Callback)
    : M (option error) :=
  match err with
  | None => call proc ProcCalled
  | Some (ErrorValue appErr) =>
      if Level appErr =? WarningLevel then ret None
      else if Level appErr =? ErrorLevel then ret (Some (ErrorValue appErr))
      else panic (PanicError (ErrorValue appErr))
  | Some _ => ret err
  end.

End Client.

(** ** Reading traces and outcomes *)

Section Observations.

Context {T : Types}.

(** The state a computation ends in, whether it returned or panicked. *)
Definition final {A} (o : Outcome A) : State :=
  match o with
  | Returned _ s => s
  | Panicked _ s => s
  end.

(** The invocations of the walker recorded in a trace, oldest first: the
    attribute passed and how the invocation ended. *)
Fixpoint walker_calls (t : list Event) : list (hcl_Attribute * Completion) :=
  match t with
  | [] => []
  | WalkerCalled attr c :: t' => (attr, c) :: walker_calls t'
  | _ :: t' => walker_calls t'
  end.

(** The invocations of [proc] recorded in a trace. *)
Fixpoint proc_calls (t : list Event) : list Completion :=
  match t with
  | [] => []
  | ProcCalled c :: t' => c :: proc_calls t'
  | _ :: t' => proc_calls t'
  end.

(** The RPC requests recorded in a trace. *)
Fixpoint requests (t : list Event) : list (string * Request) :=
  match t with
  | [] => []
  | Called serviceMethod args :: t' => (serviceMethod, args) :: requests t'
  | _ :: t' => requests t'
  end.

End Observations.

(** ** Decoding one attribute *)

Section Decoding.

Context {T : Types} {X : External}.

(** The decode step of the walk: the call of [parseExpression] made for
    [attribute]. *)
Definition decode (attribute : Attribute) : M (Expression * hcl.Diagnostics) :=
  parseExpression (Attribute_Expr attribute)
    (hcl.Filename (Attribute_ExprRange attribute))
    (hcl.Start (Attribute_ExprRange attribute)).

(** [attribute] decodes without error diagnostics, and [attr] is the
    [hcl.Attribute] the walk builds from it. *)
Definition decodes_to (attribute : Attribute) (attr : hcl_Attribute) : Prop :=
  exists expr diags,
    (forall s, decode attribute s = Returned (expr, diags) s)
    /\ hcl.HasErrors diags = false
    /\ attr = {| hcl_Name := Attribute_Name attribute;
                 hcl_Expr := expr;
                 hcl_Range := Attribute_Range attribute;
                 hcl_NameRange := Attribute_NameRange attribute |}.

(** [o] ends the way the callback ended: it returns what the callback
    returned, or panics with what the callback panicked with. *)
Definition ends_as (c : Completion) (o : Outcome (option error)) : Prop :=
  match c with
  | Returns err => exists s, o = Returned err s
  | Panics v => exists s, o = Panicked v s
  end.

(** An invocation that returned nil. *)
Definition passed (attr : hcl_Attribute) : hcl_Attribute * Completion :=
  (attr, Returns None).

End Decoding.

(** ** More readings of a trace and of a walk *)

Section Readings.

Context {T : Types}.

(** The files read, in the order they were read. *)
Fixpoint file_reads (t : list Event) : list string :=
  match t with
  | [] => []
  | FileRead filename :: t' => filename :: file_reads t'
  | _ :: t' => file_reads t'
  end.

(** The conversions attempted: the value and the destination. *)
Fixpoint conversions (t : list Event) : list (Value * Dest) :=
  match t with
  | [] => []
  | Converted val ret_ :: t' => (val, ret_) :: conversions t'
  | _ :: t' => conversions t'
  end.

(** The trace without the invocations of the walker: what the client did
    on its own account. *)
Fixpoint own_actions (t : list Event) : list Event :=
  match t with
  | [] => []
  | WalkerCalled _ _ :: t' => own_actions t'
  | ev :: t' => ev :: own_actions t'
  end.

(** Invoking [walker] on [attrs] one after the other, each invocation
    starting in the world the previous one left, up to and including the
    first one that does not return nil. *)
Fixpoint visit_all (walker : hcl_Attribute -> Callback)
    (attrs : list hcl_Attribute) (w : World) : Completion * World :=
  match attrs with
  | [] => (Returns None, w)
  | attr :: rest =>
      match walker attr w with
      | (Returns None, w') => visit_all walker rest w'
      | stopped => stopped
      end
  end.

(** The invocations of [walker] that iterating it over [attrs] makes,
    started in [w]: each attribute with how the walker, applied to it in
    the world the previous invocation left, ended; the list stops after
    the first invocation that does not return nil. *)
Fixpoint invocations (walker : hcl_Attribute -> Callback)
    (attrs : list hcl_Attribute) (w : World)
    : list (hcl_Attribute * Completion) :=
  match attrs with
  | [] => []
  | attr :: rest =>
      let '(c, w') := walker attr w in
      (attr, c) ::
      match c with
      | Returns None => invocations walker rest w'
      | _ => []
      end
  end.

End Readings.

(** ** A small concrete plugin and host

    An instance of the parameters on which the statements below can be
    evaluated.  Expressions are their range and source text, values are
    integers, a destination says whether it can hold an integer, and the
    host answers every call with replies fixed in advance. *)

Module Toy.

Record ToyHost : Type := mkToyHost
  { attributes_reply : option error * (list Attribute * option error);
    evalexpr_reply : option error * (Z * option error);
    emitissue_reply : option error * interface;
    served : list string }.

#[local] Instance types : Types :=
  {| Expression := hcl.Range * list byte;
     Value := Z;
     Dest := bool;
     Rule := string;
     RuleObject := string;
     Host := ToyHost;
     Memory := list Z |}.

Definition serve (method : string) (h : ToyHost) : ToyHost :=
  {| attributes_reply := attributes_reply h;
     evalexpr_reply := evalexpr_reply h;
     emitissue_reply := emitissue_reply h;
     served := served h ++ [method] |}.

(** A parser that accepts every non-empty source text. *)
Definition parse (src : list byte) (filename : string) (start : hcl.Pos)
    : (hcl.Range * list byte) * hcl.Diagnostics :=
  ({| hcl.Filename := filename; hcl.Start := start; hcl.End := start |}, src,
   match src with
   | [] => [ {| hcl.Severity := hcl.DiagError;
                hcl.Summary := "Missing expression";
                hcl.Detail := "Expected the start of an expression.";
                hcl.Subject := None |} ]
   | _ :: _ => []
   end).

#[local] Instance external : External :=
  {| Expression_Range := fun e : Expression => fst e;
     hclsyntax_ParseExpression := parse;
     json_ParseExpression := parse;
     gocty_FromCtyValue := fun (v : Value) (d : Dest) (m : Memory) =>
       if d then (None, v :: m)
       else (Some (ForeignError "incorrect type"), m);
     newObjectFromRule := fun r : Rule => r;
     Error_Error := Message;
     TypeMismatchError := 4;
     ErrorLevel := 0;
     WarningLevel := 1;
     Plugin_Attributes := fun _ (h : Host) =>
       (fst (attributes_reply h),
        {| Attributes := fst (snd (attributes_reply h));
           AttributesResponse_Err := snd (snd (attributes_reply h)) |},
        serve "Plugin.Attributes" h);
     Plugin_EvalExpr := fun _ (h : Host) =>
       (fst (evalexpr_reply h),
        {| Val := fst (snd (evalexpr_reply h));
           EvalExprResponse_Err := snd (snd (evalexpr_reply h)) |},
        serve "Plugin.EvalExpr" h);
     Plugin_EmitIssue := fun _ (h : Host) =>
       (fst (emitissue_reply h), snd (emitissue_reply h),
        serve "Plugin.EmitIssue" h) |}.

Definition pos (line column byte : Z) : hcl.Pos :=
  {| hcl.Line := line; hcl.Column := column; hcl.Byte := byte |}.

(** main.tf holds [count = 1 + 2]; the expression is bytes 8 to 13. *)
Definition main_tf : list byte := list_byte_of_string "count = 1 + 2".

Definition count_range (filename : string) : hcl.Range :=
  {| hcl.Filename := filename;
     hcl.Start := pos 1 9 8;
     hcl.End := pos 1 14 13 |}.

Definition count_expr (filename : string) : Expression :=
  (count_range filename, list_byte_of_string "1 + 2").

(** A file system with main.tf and nothing else. *)
Definition disk (filename : string) : list byte + error :=
  if String.eqb filename "main.tf" then inl main_tf
  else inr (ForeignError ("open " ++ filename ++ ": no such file or directory")%string).

Definition quiet_host : ToyHost :=
  {| attributes_reply := (None, ([], None));
     evalexpr_reply := (None, (3, None));
     emitissue_reply := (None, nil_interface);
     served := [] |}.

Definition start_with (h : ToyHost) : State :=
  {| world := {| files := disk; host := h; memory := [] |};
     trace := [] |}.

(** A wire attribute whose expression is [src], in file [filename]. *)
Definition wire (name filename : string) (src : string) : Attribute :=
  {| Attribute_Name := name;
     Attribute_Expr := list_byte_of_string src;
     Attribute_ExprRange := count_range filename;
     Attribute_Range := count_range filename;
     Attribute_NameRange := count_range filename |}.

(** The same attribute after a successful decode. *)
Definition decoded_wire (name filename : string) (src : string) : hcl_Attribute :=
  {| hcl_Name := name;
     hcl_Expr := fst (parse (list_byte_of_string src) filename (pos 1 9 8));
     hcl_Range := count_range filename;
     hcl_NameRange := count_range filename |}.

Definition host_with_attributes (l : list Attribute) (e : option error) : ToyHost :=
  {| attributes_reply := (None, (l, e));
     evalexpr_reply := (None, (3, None));
     emitissue_reply := (None, nil_interface);
     served := [] |}.

(** A walker that counts its invocations in memory and never fails. *)
Definition passing_walker (_ : hcl_Attribute) : Callback :=
  fun w =>
    (Returns None,
     {| files := files w; host := host w; memory := 1 :: memory w |}).

(** A walker that rejects the attribute called [name]. *)
Definition picky_walker (name : string) (attr : hcl_Attribute) : Callback :=
  fun w =>
    if String.eqb (hcl_Name attr) name
    then (Returns (Some (ForeignError "rejected")), w)
    else (Returns None, w).

(** A host that answers [EmitIssue] with an error in the reply, the call
    itself succeeding. *)
Definition reporting_host : ToyHost :=
  {| attributes_reply := (None, ([], None));
     evalexpr_reply := (None, (3, None));
     emitissue_reply :=
       (None, error_in_interface (ErrorValue (mkError 0 0 "rule not found" None)));
     served := [] |}.

(** A host behind a connection that has been shut down. *)
Definition unreachable_host : ToyHost :=
  {| attributes_reply := (Some (ForeignError "connection is shut down"), ([], None));
     evalexpr_reply := (Some (ForeignError "connection is shut down"), (0, None));
     emitissue_reply := (Some (ForeignError "connection is shut down"), nil_interface);
     served := [] |}.

Definition three_attributes : list Attribute :=
  [wire "instance_type" "main.tf" "t2";
   wire "ami" "main.tf" "ami";
   wire "tags" "tags.tf.json" "{}"].


(** What the three attributes decode to. *)
Definition decoded_three : list hcl_Attribute :=
  [decoded_wire "instance_type" "main.tf" "t2";
   decoded_wire "ami" "main.tf" "ami";
   decoded_wire "tags" "tags.tf.json" "{}"].

(** The metadata of an issue about [1 + 2] in main.tf. *)
Definition meta_main : Metadata := {| Metadata_Expr := count_expr "main.tf" |}.

Definition blocking : Error := mkError 0 0 "blocking" None.
Definition warning : Error := mkError 0 1 "warning" None.
Definition broken : Error := mkError 0 7 "level 7" None.

(** A host whose evaluator answers with a warning. *)
Definition warning_host : ToyHost :=
  {| attributes_reply := (None, ([], None));
     evalexpr_reply := (None, (0, Some (ErrorValue warning)));
     emitissue_reply := (None, nil_interface);
     served := [] |}.

(** A host that fails the call and fills the reply all the same. *)
Definition confused_host : ToyHost :=
  {| attributes_reply :=
       (Some (ForeignError "unexpected EOF"),
        (three_attributes, Some (ErrorValue blocking)));
     evalexpr_reply :=
       (Some (ForeignError "unexpected EOF"), (3, Some (ErrorValue warning)));
     emitissue_reply := (Some (ForeignError "unexpected EOF"), nil_interface);
     served := [] |}.

(** The second attribute names a file that is neither kind. *)
Definition stray_attributes : list Attribute :=
  [wire "instance_type" "main.tf" "t2";
   wire "ami" "README.md" "ami";
   wire "tags" "tags.tf.json" "{}"].

(** A walker that panics on the attribute called [name]. *)
Definition panicking_walker (name : string) (attr : hcl_Attribute) : Callback :=
  fun w =>
    if String.eqb (hcl_Name attr) name
    then (Panics (PanicString "index out of range"), w)
    else (Returns None, w).

(** A [proc] that reports what it finds in memory. *)
Definition reporting_proc : Callback :=
  fun w =>
    match memory w with
    | [] => (Returns (Some (ForeignError "nothing evaluated")), w)
    | _ :: _ => (Returns None, w)
    end.

End Toy.

(** * Properties *)

(** ** Suffixes *)

Section Suffix.

Local Open Scope nat_scope.

Lemma length_app_string (s t : string) :
  String.length (s ++ t) = String.length s + String.length t.
Proof. induction s as [|a s IH]; simpl; [reflexivity | now rewrite IH]. Qed.

Lemma substring_whole (t : string) : String.substring 0 (String.length t) t = t.
Proof. induction t as [|a t IH]; simpl; [reflexivity | now rewrite IH]. Qed.

Lemma substring_past_stem (stem t : string) (k m : nat) :
  String.substring (String.length stem + k) m (stem ++ t) = String.substring k m t.
Proof. induction stem as [|a stem IH]; simpl; [reflexivity | exact IH]. Qed.

Lemma substring_split (n : nat) : forall s : string,
  n <= String.length s ->
  s = (String.substring 0 n s ++ String.substring n (String.length s - n) s)%string.
Proof.
  induction n as [|n IH]; intros s Hn.
  - rewrite Nat.sub_0_r, substring_whole. now destruct s.
  - destruct s as [|a s]; simpl in *; [lia|].
    f_equal. apply IH. lia.
Qed.

(** [strings.HasSuffix] holds exactly of the strings that end in [suffix]. *)
Lemma HasSuffix_iff (s suffix : string) :
  strings.HasSuffix s suffix = true <-> exists stem, s = (stem ++ suffix)%string.
Proof.
  unfold strings.HasSuffix. split.
  - intros H. apply andb_true_iff in H as [Hlen Heq].
    apply Nat.leb_le in Hlen. apply String.eqb_eq in Heq.
    exists (String.substring 0 (String.length s - String.length suffix) s).
    pose proof (substring_split (String.length s - String.length suffix) s) as Hs.
    replace (String.length s - (String.length s - String.length suffix))
      with (String.length suffix) in Hs by lia.
    rewrite Heq in Hs. apply Hs. lia.
  - intros [stem ->]. rewrite length_app_string.
    apply andb_true_iff. split; [apply Nat.leb_le; lia|].
    replace (String.length stem + String.length suffix - String.length suffix)
      with (String.length stem + 0) by lia.
    rewrite substring_past_stem, substring_whole. apply String.eqb_refl.
Qed.

Lemma HasSuffix_stem (stem suffix : string) :
  strings.HasSuffix (stem ++ suffix) suffix = true.
Proof. apply HasSuffix_iff. now exists stem. Qed.

(** A name that ends in [.tf.json] does not end in [.tf]. *)
Lemma tf_json_not_tf (stem : string) :
  strings.HasSuffix (stem ++ ".tf.json") ".tf" = false.
Proof.
  unfold strings.HasSuffix. rewrite length_app_string. simpl String.length.
  replace (String.length stem + 8 - 3) with (String.length stem + 5) by lia.
  rewrite substring_past_stem. simpl. apply andb_false_r.
Qed.

End Suffix.

Lemma not_suffix (s suffix : string) :
  strings.HasSuffix s suffix = false ->
  forall stem, s <> (stem ++ suffix)%string.
Proof.
  intros H stem ->. rewrite HasSuffix_stem in H. discriminate.
Qed.

(** ** Slicing *)



Section TraceProperties.

Context {T : Types}.

Lemma walker_calls_app (t u : list Event) :
  walker_calls (t ++ u) = walker_calls t ++ walker_calls u.
Proof.
  induction t as [|ev t IH]; simpl; [reflexivity|].
  destruct ev; simpl; now rewrite ?IH.
Qed.

Lemma proc_calls_app (t u : list Event) :
  proc_calls (t ++ u) = proc_calls t ++ proc_calls u.
Proof.
  induction t as [|ev t IH]; simpl; [reflexivity|].
  destruct ev; simpl; now rewrite ?IH.
Qed.

Lemma requests_app (t u : list Event) :
  requests (t ++ u) = requests t ++ requests u.
Proof.
  induction t as [|ev t IH]; simpl; [reflexivity|].
  destruct ev; simpl; now rewrite ?IH.
Qed.

End TraceProperties.

Section ClientProperties.

Context {T : Types} {X : External}.

(** ** parseExpression *)

(** C6. The decode step looks at nothing but the end of the file name: a
    name ending in [.tf] goes to the native-syntax parser, a name ending in
    [.tf.json] to the JSON-syntax parser, both with the bytes, the name and
    the start position they were given; any other name makes the function
    panic, so that no value is returned. *)
Theorem parseExpression_dispatch (src : list byte) (start : hcl.Pos) (s : State) :
  (forall stem : string,
      parseExpression src (stem ++ ".tf") start s
      = Returned (hclsyntax_ParseExpression src (stem ++ ".tf") start) s)
  /\ (forall stem : string,
      parseExpression src (stem ++ ".tf.json") start s
      = Returned (json_ParseExpression src (stem ++ ".tf.json") start) s)
  /\ (forall filename : string,
      (forall stem, filename <> (stem ++ ".tf")%string) ->
      (forall stem, filename <> (stem ++ ".tf.json")%string) ->
      parseExpression src filename start s
      = Panicked (PanicString ("Unexpected file: " ++ filename)) s).
Proof.
  unfold parseExpression. repeat split.
  - intros stem. now rewrite HasSuffix_stem.
  - intros stem. now rewrite tf_json_not_tf, HasSuffix_stem.
  - intros filename Htf Hjson.
    destruct (strings.HasSuffix filename ".tf") eqn:E1.
    { apply HasSuffix_iff in E1 as [stem ->]. now elim (Htf stem). }
    destruct (strings.HasSuffix filename ".tf.json") eqn:E2.
    { apply HasSuffix_iff in E2 as [stem ->]. now elim (Hjson stem). }
    reflexivity.
Qed.

(** ** EnsureNoError *)

(** C3. With a nil error, [proc] runs once and what it returns is what
    [EnsureNoError] returns; with an [Error] of warning level nothing runs
    and nil is returned; with an [Error] of error level nothing runs and the
    error comes back as it went in.  The two level constants are taken to
    be different. *)
Theorem EnsureNoError_spec (proc : Callback) (s : State) :
  WarningLevel <> ErrorLevel ->
  (forall r w,
      proc (world s) = (Returns r, w) ->
      EnsureNoError None proc s
      = Returned r {| world := w; trace := trace s ++ [ProcCalled (Returns r)] |}
      /\ proc_calls (trace (final (EnsureNoError None proc s)))
         = proc_calls (trace s) ++ [Returns r])
  /\ (forall e,
      Level e = WarningLevel ->
      EnsureNoError (Some (ErrorValue e)) proc s = Returned None s)
  /\ (forall e,
      Level e = ErrorLevel ->
      EnsureNoError (Some (ErrorValue e)) proc s
      = Returned (Some (ErrorValue e)) s).
Proof.
  intros Hne. split; [|split].
  - intros r w Hproc. unfold EnsureNoError, call. rewrite Hproc. simpl.
    split; [reflexivity|]. now rewrite proc_calls_app.
  - intros e He. simpl. rewrite He, Z.eqb_refl. reflexivity.
  - intros e He. simpl. rewrite He.
    destruct (Z.eqb_spec ErrorLevel WarningLevel) as [E|_]; [now elim Hne|].
    rewrite Z.eqb_refl. reflexivity.
Qed.

(** C7. An [Error] value whose level is neither of the two constants makes
    [EnsureNoError] panic with that error: nothing is returned, and [proc]
    is not run. *)
Theorem EnsureNoError_unknown_level (e : Error) (proc : Callback) (s : State) :
  Level e <> WarningLevel ->
  Level e <> ErrorLevel ->
  EnsureNoError (Some (ErrorValue e)) proc s
  = Panicked (PanicError (ErrorValue e)) s.
Proof.
  intros Hw He. simpl.
  destruct (Z.eqb_spec (Level e) WarningLevel); [contradiction|].
  destruct (Z.eqb_spec (Level e) ErrorLevel); [contradiction|].
  reflexivity.
Qed.

(** ** The encode step of EvaluateExpr and EmitIssue *)

Lemma EvaluateExpr_unreadable (expr : Expression) (ret_ : Dest) (s : State) e :
  files (world s) (hcl.Filename (Expression_Range expr)) = inr e ->
  EvaluateExpr expr ret_ s
  = Returned (Some e) (record (FileRead (hcl.Filename (Expression_Range expr))) s).
Proof.
  intros Hread. unfold EvaluateExpr, bind, ioutil_ReadFile.
  rewrite Hread. reflexivity.
Qed.

Lemma EmitIssue_unreadable rule message location (meta : Metadata) (s : State) e :
  files (world s) (hcl.Filename (Expression_Range (Metadata_Expr meta))) = inr e ->
  EmitIssue rule message location meta s
  = Returned (Some e)
      (record (FileRead (hcl.Filename (Expression_Range (Metadata_Expr meta)))) s).
Proof.
  intros Hread. unfold EmitIssue, bind, ioutil_ReadFile.
  rewrite Hread. reflexivity.
Qed.

(** What [EmitIssue] does once the file is read: one call, whose error is
    the result. *)
Lemma EmitIssue_run rule message location (meta : Metadata) (s : State)
    src err reply h :
  let range := Expression_Range (Metadata_Expr meta) in
  let req :=
    {| EmitIssueRequest_Rule := newObjectFromRule rule;
       EmitIssueRequest_Message := message;
       EmitIssueRequest_Location := location;
       EmitIssueRequest_Expr := hcl.SliceBytes range src;
       EmitIssueRequest_ExprRange := range |} in
  files (world s) (hcl.Filename range) = inl src ->
  Plugin_EmitIssue req (host (world s)) = (err, reply, h) ->
  EmitIssue rule message location meta s
  = Returned err
      {| world := {| files := files (world s); host := h;
                     memory := memory (world s) |};
         trace := trace s ++ [FileRead (hcl.Filename range);
                              Called "Plugin.EmitIssue" (EmitIssueArgs req)] |}.
Proof.
  intros range req Hread Hcall.
  unfold EmitIssue, bind, ioutil_ReadFile, rpcClient_Call.
  fold range. rewrite Hread. simpl. fold req. rewrite Hcall.
  unfold record; simpl. rewrite <- app_assoc. simpl.
  destruct err; reflexivity.
Qed.


(** What [EvaluateExpr] does when the value does not fit the destination. *)
Lemma EvaluateExpr_conversion_failure (expr : Expression) (ret_ : Dest)
    (s : State) src response h cause m :
  let range := Expression_Range expr in
  let req :=
    {| EvalExprRequest_Expr := hcl.SliceBytes range src;
       EvalExprRequest_ExprRange := range;
       Ret := ret_ |} in
  let err :=
    mkError TypeMismatchError ErrorLevel
      ("Invalid type expression in " ++ hcl.Filename range ++ ":"
       ++ itoa (hcl.Line (hcl.Start range)))%string
      (Some cause) in
  files (world s) (hcl.Filename range) = inl src ->
  Plugin_EvalExpr req (host (world s)) = (None, response, h) ->
  EvalExprResponse_Err response = None ->
  gocty_FromCtyValue (Val response) ret_ (memory (world s)) = (Some cause, m) ->
  EvaluateExpr expr ret_ s
  = Returned (Some (ErrorPointer (Some err)))
      {| world := {| files := files (world s); host := h; memory := m |};
         trace := trace s ++ [FileRead (hcl.Filename range);
                              Called "Plugin.EvalExpr" (EvalExprArgs req);
                              Converted (Val response) ret_;
                              Logged ("[ERROR] " ++ Error_Error err)] |}.
Proof.
  intros range req err Hread Hcall Herr Hconv.
  unfold EvaluateExpr, bind, ioutil_ReadFile, rpcClient_Call, FromCtyValue,
    log_Printf, emit.
  fold range. rewrite Hread. simpl. fold req. rewrite Hcall. simpl.
  rewrite Herr. simpl. rewrite Hconv. simpl.
  unfold record; simpl. rewrite <- !app_assoc. reflexivity.
Qed.


(** ** EvaluateExpr *)

(** C4. When the call goes through, the host reports no error and the
    value cannot be converted into the destination, [EvaluateExpr] returns
    a non-nil error: an [Error] with code [TypeMismatchError] and level
    [ErrorLevel], whose message names the file and the start line of the
    expression and whose cause is the conversion error. *)
Theorem EvaluateExpr_type_mismatch (expr : Expression) (ret_ : Dest)
    (s : State) src response h cause m :
  let range := Expression_Range expr in
  files (world s) (hcl.Filename range) = inl src ->
  Plugin_EvalExpr
    {| EvalExprRequest_Expr := hcl.SliceBytes range src;
       EvalExprRequest_ExprRange := range;
       Ret := ret_ |} (host (world s)) = (None, response, h) ->
  EvalExprResponse_Err response = None ->
  gocty_FromCtyValue (Val response) ret_ (memory (world s)) = (Some cause, m) ->
  exists err s',
    EvaluateExpr expr ret_ s = Returned (Some (ErrorPointer (Some err))) s'
    /\ Code err = TypeMismatchError
    /\ Level err = ErrorLevel
    /\ Message err
       = ("Invalid type expression in " ++ hcl.Filename range ++ ":"
          ++ itoa (hcl.Line (hcl.Start range)))%string
    /\ Cause err = Some cause.
Proof.
  intros range Hread Hcall Herr Hconv.
  do 2 eexists. split.
  - exact (EvaluateExpr_conversion_failure expr ret_ s src response h cause m
             Hread Hcall Herr Hconv).
  - repeat split.
Qed.

(** ** EmitIssue *)

(** C1, as the code has it.  Once the file is read, [EmitIssue] returns the
    error of the RPC call and nothing else: nil when the call returns nil,
    that error otherwise.  The reply is not looked at, whatever the host
    put there. *)
Theorem EmitIssue_returns_call_error rule message location (meta : Metadata)
    (s : State) src err reply h :
  let range := Expression_Range (Metadata_Expr meta) in
  files (world s) (hcl.Filename range) = inl src ->
  Plugin_EmitIssue
    {| EmitIssueRequest_Rule := newObjectFromRule rule;
       EmitIssueRequest_Message := message;
       EmitIssueRequest_Location := location;
       EmitIssueRequest_Expr := hcl.SliceBytes range src;
       EmitIssueRequest_ExprRange := range |} (host (world s))
  = (err, reply, h) ->
  exists s', EmitIssue rule message location meta s = Returned err s'.
Proof.
  intros range Hread Hcall. eexists.
  exact (EmitIssue_run rule message location meta s src err reply h Hread Hcall).
Qed.

(** C10. [EnsureNoError] tells a leveled error by the dynamic type [Error].
    An error of dynamic type [*Error] is handed back as it is, whatever its
    level and even if the pointer is nil: [proc] is not run, a warning is
    not swallowed, an unknown level does not panic.  The error that
    [EvaluateExpr] builds on a failed conversion is such a pointer. *)
Theorem EnsureNoError_pointer (proc : Callback) (s : State) :
  (forall p : option Error,
      EnsureNoError (Some (ErrorPointer p)) proc s
      = Returned (Some (ErrorPointer p)) s)
  /\ (forall expr ret_ s0 src response h cause m,
      files (world s0) (hcl.Filename (Expression_Range expr)) = inl src ->
      Plugin_EvalExpr
        {| EvalExprRequest_Expr := hcl.SliceBytes (Expression_Range expr) src;
           EvalExprRequest_ExprRange := Expression_Range expr;
           Ret := ret_ |} (host (world s0)) = (None, response, h) ->
      EvalExprResponse_Err response = None ->
      gocty_FromCtyValue (Val response) ret_ (memory (world s0))
      = (Some cause, m) ->
      exists p s1,
        EvaluateExpr expr ret_ s0 = Returned (Some (ErrorPointer p)) s1
        /\ EnsureNoError (Some (ErrorPointer p)) proc s
           = Returned (Some (ErrorPointer p)) s).
Proof.
  split.
  - intros p. reflexivity.
  - intros expr ret_ s0 src response h cause m Hread Hcall Herr Hconv.
    do 2 eexists. split; [|reflexivity].
    exact (EvaluateExpr_conversion_failure expr ret_ s0 src response h cause m
             Hread Hcall Herr Hconv).
Qed.

End ClientProperties.

Section WalkProperties.

Context {T : Types} {X : External}.

(** ** WalkResourceAttributes *)

(** One turn of the loop on an attribute that decodes. *)
Lemma walk_cons_decoded walker attribute attr rest (s : State) :
  decodes_to attribute attr ->
  walk walker (attribute :: rest) s
  = match walker attr (world s) with
    | (Returns None, w) =>
        walk walker rest
          {| world := w; trace := trace s ++ [WalkerCalled attr (Returns None)] |}
    | (Returns (Some e), w) =>
        Returned (Some e)
          {| world := w;
             trace := trace s ++ [WalkerCalled attr (Returns (Some e))] |}
    | (Panics v, w) =>
        Panicked v
          {| world := w; trace := trace s ++ [WalkerCalled attr (Panics v)] |}
    end.
Proof.
  intros (expr & diags & Hdec & Hok & ->).
  simpl. unfold bind at 1. unfold decode in Hdec. rewrite Hdec, Hok.
  unfold bind, call.
  destruct (walker _ (world s)) as [[[e|]|v] w]; reflexivity.
Qed.

(** One turn of the loop on an attribute whose diagnostics have errors. *)
Lemma walk_cons_failed walker attribute rest (s : State) expr diags :
  decode attribute s = Returned (expr, diags) s ->
  hcl.HasErrors diags = true ->
  walk walker (attribute :: rest) s = Returned (Some (DiagnosticsError diags)) s.
Proof.
  intros Hdec Herr. simpl. unfold bind. unfold decode in Hdec.
  rewrite Hdec, Herr. reflexivity.
Qed.

(** The walk over attributes that all decode: either every invocation
    returns nil and the walk goes on with what follows them, or it stops at
    the first invocation that does not. *)
Lemma walk_prefix walker before attrs :
  Forall2 decodes_to before attrs ->
  forall rest (s : State),
    (exists s1,
        walk walker (before ++ rest) s = walk walker rest s1
        /\ walker_calls (trace s1) = walker_calls (trace s) ++ map passed attrs)
    \/ (exists visited attr later c,
        attrs = visited ++ attr :: later
        /\ c <> Returns None
        /\ walker_calls (trace (final (walk walker (before ++ rest) s)))
           = walker_calls (trace s) ++ map passed visited ++ [(attr, c)]
        /\ ends_as c (walk walker (before ++ rest) s)).
Proof.
  induction 1 as [|attribute attr before attrs Hdec _ IH]; intros rest s.
  - left. exists s. split; [reflexivity|]. simpl. now rewrite app_nil_r.
  - rewrite <- app_comm_cons, (walk_cons_decoded _ _ _ _ _ Hdec).
    destruct (walker attr (world s)) as [[[e|]|v] w].
    + right. exists [], attr, attrs, (Returns (Some e)).
      repeat split; [discriminate| |now eexists].
      simpl. now rewrite walker_calls_app.
    + set (s0 := {| world := w;
                    trace := trace s ++ [WalkerCalled attr (Returns None)] |}).
      assert (Hs0 : walker_calls (trace s0)
                    = walker_calls (trace s) ++ [passed attr])
        by (unfold s0; simpl; now rewrite walker_calls_app).
      destruct (IH rest s0)
        as [(s1 & Hwalk & Hcalls)
           |(visited & a & later & c & -> & Hc & Hcalls & Hend)].
      * left. exists s1. split; [exact Hwalk|].
        rewrite Hcalls, Hs0, <- app_assoc. reflexivity.
      * right. exists (attr :: visited), a, later, c.
        repeat split; [exact Hc| |exact Hend].
        rewrite Hcalls, Hs0, <- app_assoc. reflexivity.
    + right. exists [], attr, attrs, (Panics v).
      repeat split; [discriminate| |now eexists].
      simpl. now rewrite walker_calls_app.
Qed.

(** What the loop records is what the walker did: the invocations in the
    trace are the walker applied to the decoded attributes, one after the
    other, each in the world the previous one left. *)
Lemma walk_invocations walker attributes attrs :
  Forall2 decodes_to attributes attrs ->
  forall s : State,
    walker_calls (trace (final (walk walker attributes s)))
    = walker_calls (trace s) ++ invocations walker attrs (world s).
Proof.
  induction 1 as [|attribute attr attributes attrs Hdec _ IH]; intros s.
  - simpl. now rewrite app_nil_r.
  - rewrite (walk_cons_decoded _ _ _ _ _ Hdec). simpl.
    destruct (walker attr (world s)) as [[[e|]|v] w].
    + simpl. now rewrite walker_calls_app.
    + rewrite IH. simpl. rewrite walker_calls_app, <- app_assoc. reflexivity.
    + simpl. now rewrite walker_calls_app.
Qed.

(** Up to the loop: the log line, the call, the two error checks. *)
Lemma WalkResourceAttributes_run resource attributeName walker (s : State)
    response h :
  let req := {| Resource := resource; AttributeName := attributeName |} in
  let s0 :=
    {| world := {| files := files (world s); host := h;
                   memory := memory (world s) |};
       trace := trace s ++
         [Logged ("[DEBUG] Walk `" ++ resource ++ ".*." ++ attributeName
                  ++ "` attribute")%string;
          Called "Plugin.Attributes" (AttributesArgs req)] |} in
  Plugin_Attributes req (host (world s)) = (None, response, h) ->
  WalkResourceAttributes resource attributeName walker s
  = match AttributesResponse_Err response with
    | Some e => Returned (Some e) s0
    | None => walk walker (Attributes response) s0
    end.
Proof.
  intros req s0 Hcall.
  unfold WalkResourceAttributes, bind, log_Printf, emit, rpcClient_Call.
  simpl. fold req. rewrite Hcall. simpl.
  unfold record; simpl. rewrite <- app_assoc. simpl. fold s0.
  destruct (AttributesResponse_Err response); reflexivity.
Qed.

Lemma firstn_through {A} (l : list A) (a : A) (r : list A) :
  firstn (S (List.length l)) (l ++ a :: r) = l ++ [a].
Proof.
  induction l as [|x l IH]; [reflexivity|].
  change (x :: firstn (S (List.length l)) (l ++ a :: r) = x :: l ++ [a]).
  now rewrite IH.
Qed.

Lemma passed_not_failed attrs k attr c :
  nth_error (map passed attrs) k = Some (attr, c) -> c = Returns None.
Proof.
  intros H. apply nth_error_In, in_map_iff in H as (a & Ha & _).
  now inversion Ha.
Qed.

Lemma map_fst_passed (attrs : list hcl_Attribute) :
  map fst (map passed attrs) = attrs.
Proof. rewrite map_map. simpl. apply map_id. Qed.

(** C5. When the response has its error slot set, that error is returned
    right after the call: the walker is not invoked, however many
    attributes the response carries. *)
Theorem WalkResourceAttributes_application_error resource attributeName walker
    (s : State) response h e :
  Plugin_Attributes {| Resource := resource; AttributeName := attributeName |}
    (host (world s)) = (None, response, h) ->
  AttributesResponse_Err response = Some e ->
  WalkResourceAttributes resource attributeName walker s
  = Returned (Some e)
      {| world := {| files := files (world s); host := h;
                     memory := memory (world s) |};
         trace := trace s ++
           [Logged ("[DEBUG] Walk `" ++ resource ++ ".*." ++ attributeName
                    ++ "` attribute")%string;
            Called "Plugin.Attributes"
              (AttributesArgs {| Resource := resource;
                                 AttributeName := attributeName |})] |}
  /\ walker_calls
       (trace (final (WalkResourceAttributes resource attributeName walker s)))
     = walker_calls (trace s).
Proof.
  intros Hcall Herr.
  rewrite (WalkResourceAttributes_run _ _ walker s response h Hcall), Herr.
  split; [reflexivity|]. simpl. rewrite walker_calls_app. simpl.
  apply app_nil_r.
Qed.

(** C2. The response carries N attributes and no error, and all of them
    decode.  [calls] are the invocations of the walker made by this walk:
    they are the walker itself applied to the decoded attributes one after
    the other, starting in the world the call to the host left, each with
    the result the walker gave.  If every one of them returned nil, they
    are the N attributes in the order of the response, and the walk returns
    nil.  If invocation number k+1 returned an error, there are exactly k+1
    invocations, on the first k+1 attributes in order, and the walk returns
    that very error. *)
Theorem WalkResourceAttributes_visits resource attributeName walker
    (s : State) response h attrs :
  Plugin_Attributes {| Resource := resource; AttributeName := attributeName |}
    (host (world s)) = (None, response, h) ->
  AttributesResponse_Err response = None ->
  Forall2 decodes_to (Attributes response) attrs ->
  let w0 := {| files := files (world s); host := h;
               memory := memory (world s) |} in
  exists calls,
    walker_calls
      (trace (final (WalkResourceAttributes resource attributeName walker s)))
    = walker_calls (trace s) ++ calls
    /\ calls = invocations walker attrs w0
    /\ (Forall (fun c => snd c = Returns None) calls ->
        map fst calls = attrs
        /\ List.length calls = List.length (Attributes response)
        /\ exists s',
            WalkResourceAttributes resource attributeName walker s
            = Returned None s')
    /\ (forall k attr e,
        nth_error calls k = Some (attr, Returns (Some e)) ->
        List.length calls = S k
        /\ map fst calls = firstn (S k) attrs
        /\ exists s',
            WalkResourceAttributes resource attributeName walker s
            = Returned (Some e) s').
Proof.
  intros Hcall Herr Hdec w0.
  rewrite (WalkResourceAttributes_run _ _ walker s response h Hcall), Herr.
  match goal with |- context [walk walker _ ?s0] => set (st := s0) end.
  assert (Hst : walker_calls (trace st) = walker_calls (trace s)).
  { unfold st; simpl. rewrite walker_calls_app. simpl. apply app_nil_r. }
  pose proof (walk_invocations walker _ _ Hdec st) as Hinv.
  change (world st) with w0 in Hinv. rewrite Hst in Hinv.
  exists (invocations walker attrs w0).
  split; [exact Hinv|]. split; [reflexivity|].
  destruct (walk_prefix walker _ _ Hdec [] st)
    as [(s1 & Hwalk & Hcalls)
       |(visited & a & later & c & -> & Hc & Hcalls & Hend)];
    rewrite app_nil_r in *.
  - rewrite Hwalk in *. simpl in Hinv.
    rewrite Hcalls, Hst in Hinv. apply app_inv_head in Hinv.
    rewrite <- Hinv. simpl. split.
    + intros _. rewrite map_fst_passed, length_map.
      repeat split; [symmetry; eapply Forall2_length; eassumption|now eexists].
    + intros k attr e Hk. apply passed_not_failed in Hk. discriminate.
  - rewrite Hcalls, Hst in Hinv. apply app_inv_head in Hinv.
    rewrite <- Hinv. split.
    + intros Hall. apply Forall_app in Hall as [_ Hall].
      inversion Hall; subst. now elim Hc.
    + intros k attr e Hk.
      destruct (Nat.lt_total k (List.length (map passed visited)))
        as [Hlt|[Heq|Hgt]].
      * rewrite nth_error_app1 in Hk by exact Hlt.
        apply passed_not_failed in Hk. discriminate.
      * subst k. rewrite nth_error_app2, Nat.sub_diag in Hk by lia.
        simpl in Hk. inversion Hk; subst.
        rewrite length_app, length_map, map_app, map_fst_passed. simpl.
        repeat split; [lia| |exact Hend].
        symmetry. apply firstn_through.
      * rewrite nth_error_app2 in Hk by lia.
        destruct (k - List.length (map passed visited))%nat as [|[|j]] eqn:E;
          simpl in Hk; [lia|discriminate|discriminate].
Qed.


End WalkProperties.

(** * Further properties *)

Section MoreTraceProperties.

Context {T : Types}.

Lemma file_reads_app (t u : list Event) :
  file_reads (t ++ u) = file_reads t ++ file_reads u.
Proof.
  induction t as [|ev t IH]; simpl; [reflexivity|].
  destruct ev; simpl; now rewrite ?IH.
Qed.

Lemma conversions_app (t u : list Event) :
  conversions (t ++ u) = conversions t ++ conversions u.
Proof.
  induction t as [|ev t IH]; simpl; [reflexivity|].
  destruct ev; simpl; now rewrite ?IH.
Qed.

Lemma own_actions_app (t u : list Event) :
  own_actions (t ++ u) = own_actions t ++ own_actions u.
Proof.
  induction t as [|ev t IH]; simpl; [reflexivity|].
  destruct ev; simpl; now rewrite ?IH.
Qed.

End MoreTraceProperties.

Section MoreWalkProperties.

Context {T : Types} {X : External}.

(** ** The loop of WalkResourceAttributes, for every response *)

(** [parseExpression] does not look at the state and does not change it. *)
Lemma parseExpression_cases src filename start :
  (exists r, forall s : State, parseExpression src filename start s = Returned r s)
  \/ (forall s : State,
        parseExpression src filename start s
        = Panicked (PanicString ("Unexpected file: " ++ filename)) s).
Proof.
  unfold parseExpression.
  destruct (strings.HasSuffix filename ".tf"); [left; eexists; reflexivity|].
  destruct (strings.HasSuffix filename ".tf.json"); [left; eexists; reflexivity|].
  right. reflexivity.
Qed.


(** One turn of the loop on an attribute whose file name is of neither kind. *)
Lemma walk_cons_unexpected walker attribute rest (s : State) :
  (forall s0, decode attribute s0
              = Panicked (PanicString
                            ("Unexpected file: "
                             ++ hcl.Filename (Attribute_ExprRange attribute))) s0) ->
  walk walker (attribute :: rest) s
  = Panicked (PanicString
                ("Unexpected file: "
                 ++ hcl.Filename (Attribute_ExprRange attribute))) s.
Proof.
  intros Hdec. simpl. unfold bind. unfold decode in Hdec.
  rewrite Hdec. reflexivity.
Qed.

(** The invariant of the loop.  Whatever the attributes and the walker, the
    invocations made are the decodes of the first [n] attributes, one for
    one and in order, and every invocation but the last returned nil. *)
Lemma walk_invariant walker : forall attributes (s : State),
  exists n calls,
    walker_calls (trace (final (walk walker attributes s)))
    = walker_calls (trace s) ++ calls
    /\ Forall2 decodes_to (firstn n attributes) (map fst calls)
    /\ Forall (fun c => snd c = Returns None) (removelast calls).
Proof.
  induction attributes as [|attribute rest IH]; intros s.
  { exists 0%nat, []. simpl. rewrite app_nil_r. repeat constructor. }
  destruct (parseExpression_cases (Attribute_Expr attribute)
              (hcl.Filename (Attribute_ExprRange attribute))
              (hcl.Start (Attribute_ExprRange attribute)))
    as [[[expr diags] Hdec]|Hpanic].
  - destruct (hcl.HasErrors diags) eqn:Herr.
    + rewrite (walk_cons_failed walker attribute rest s expr diags (Hdec s) Herr).
      exists 0%nat, []. simpl. rewrite app_nil_r. repeat constructor.
    + set (attr := {| hcl_Name := Attribute_Name attribute;
                      hcl_Expr := expr;
                      hcl_Range := Attribute_Range attribute;
                      hcl_NameRange := Attribute_NameRange attribute |}).
      assert (Hto : decodes_to attribute attr)
        by (exists expr, diags; repeat split; assumption).
      rewrite (walk_cons_decoded walker attribute attr rest s Hto).
      destruct (walker attr (world s)) as [[[e|]|v] w].
      * exists 1%nat, [(attr, Returns (Some e))]. simpl.
        rewrite walker_calls_app. repeat constructor. exact Hto.
      * destruct (IH {| world := w;
                        trace := trace s ++ [WalkerCalled attr (Returns None)] |})
          as (n & calls & Hcalls & Hdecs & Hnil).
        exists (S n), ((attr, Returns None) :: calls). split; [|split].
        -- rewrite Hcalls. simpl. rewrite walker_calls_app, <- app_assoc.
           reflexivity.
        -- simpl. constructor; assumption.
        -- destruct calls as [|c calls]; [constructor|].
           change (removelast ((attr, Returns None) :: c :: calls))
             with ((attr, Returns None) :: removelast (c :: calls)).
           constructor; [reflexivity|exact Hnil].
      * exists 1%nat, [(attr, Panics v)]. simpl.
        rewrite walker_calls_app. repeat constructor. exact Hto.
  - rewrite (walk_cons_unexpected walker attribute rest s Hpanic).
    exists 0%nat, []. simpl. rewrite app_nil_r. repeat constructor.
Qed.

(** The loop records nothing but invocations of the walker. *)
Lemma walk_own_actions walker : forall attributes (s : State),
  own_actions (trace (final (walk walker attributes s))) = own_actions (trace s).
Proof.
  induction attributes as [|attribute rest IH]; intros s; [reflexivity|].
  destruct (parseExpression_cases (Attribute_Expr attribute)
              (hcl.Filename (Attribute_ExprRange attribute))
              (hcl.Start (Attribute_ExprRange attribute)))
    as [[[expr diags] Hdec]|Hpanic].
  - destruct (hcl.HasErrors diags) eqn:Herr.
    + now rewrite (walk_cons_failed walker attribute rest s expr diags (Hdec s) Herr).
    + set (attr := {| hcl_Name := Attribute_Name attribute;
                      hcl_Expr := expr;
                      hcl_Range := Attribute_Range attribute;
                      hcl_NameRange := Attribute_NameRange attribute |}).
      assert (Hto : decodes_to attribute attr)
        by (exists expr, diags; repeat split; assumption).
      rewrite (walk_cons_decoded walker attribute attr rest s Hto).
      destruct (walker attr (world s)) as [[[e|]|v] w]; rewrite ?IH; simpl;
        rewrite own_actions_app; simpl; apply app_nil_r.
  - now rewrite (walk_cons_unexpected walker attribute rest s Hpanic).
Qed.

(** Up to the loop, for every answer of the host. *)
Lemma WalkResourceAttributes_cases resource attributeName walker (s : State)
    err response h :
  let req := {| Resource := resource; AttributeName := attributeName |} in
  let s0 :=
    {| world := {| files := files (world s); host := h;
                   memory := memory (world s) |};
       trace := trace s ++
         [Logged ("[DEBUG] Walk `" ++ resource ++ ".*." ++ attributeName
                  ++ "` attribute")%string;
          Called "Plugin.Attributes" (AttributesArgs req)] |} in
  Plugin_Attributes req (host (world s)) = (err, response, h) ->
  WalkResourceAttributes resource attributeName walker s
  = match err with
    | Some e => Returned (Some e) s0
    | None =>
        match AttributesResponse_Err response with
        | Some e => Returned (Some e) s0
        | None => walk walker (Attributes response) s0
        end
    end.
Proof.
  intros req s0 Hcall.
  unfold WalkResourceAttributes, bind, log_Printf, emit, rpcClient_Call.
  simpl. fold req. rewrite Hcall. simpl.
  unfold record; simpl. rewrite <- app_assoc. simpl. fold s0.
  destruct err; [reflexivity|].
  destruct (AttributesResponse_Err response); reflexivity.
Qed.

(** X1. When the call itself fails, its error is returned as it is and the
    reply is not looked at: the walker is not invoked, whatever attributes
    or error the reply holds. *)
Theorem WalkResourceAttributes_transport_error resource attributeName walker
    (s : State) e response h :
  Plugin_Attributes {| Resource := resource; AttributeName := attributeName |}
    (host (world s)) = (Some e, response, h) ->
  WalkResourceAttributes resource attributeName walker s
  = Returned (Some e)
      {| world := {| files := files (world s); host := h;
                     memory := memory (world s) |};
         trace := trace s ++
           [Logged ("[DEBUG] Walk `" ++ resource ++ ".*." ++ attributeName
                    ++ "` attribute")%string;
            Called "Plugin.Attributes"
              (AttributesArgs {| Resource := resource;
                                 AttributeName := attributeName |})] |}
  /\ walker_calls
       (trace (final (WalkResourceAttributes resource attributeName walker s)))
     = walker_calls (trace s).
Proof.
  intros Hcall.
  rewrite (WalkResourceAttributes_cases _ _ walker s _ response h Hcall).
  split; [reflexivity|]. simpl. rewrite walker_calls_app. simpl.
  apply app_nil_r.
Qed.

(** X2. For every answer of the host and every walker: the attributes the
    walker is invoked on are the decodes of the first [n] attributes of the
    response, for some [n], one for one and in the order of the response;
    and every invocation except possibly the last returned nil. *)
Theorem WalkResourceAttributes_visits_prefix resource attributeName walker
    (s : State) err response h :
  Plugin_Attributes {| Resource := resource; AttributeName := attributeName |}
    (host (world s)) = (err, response, h) ->
  exists n calls,
    walker_calls
      (trace (final (WalkResourceAttributes resource attributeName walker s)))
    = walker_calls (trace s) ++ calls
    /\ Forall2 decodes_to (firstn n (Attributes response)) (map fst calls)
    /\ Forall (fun c => snd c = Returns None) (removelast calls).
Proof.
  intros Hcall.
  rewrite (WalkResourceAttributes_cases _ _ walker s _ response h Hcall).
  match goal with |- context [Returned _ ?s0] => set (st := s0) end.
  assert (Hst : walker_calls (trace st) = walker_calls (trace s)).
  { unfold st; simpl. rewrite walker_calls_app. simpl. apply app_nil_r. }
  assert (Hnone : exists n calls,
             walker_calls (trace st) = walker_calls (trace s) ++ calls
             /\ Forall2 decodes_to (firstn n (Attributes response)) (map fst calls)
             /\ Forall (fun c => snd c = Returns None) (removelast calls)).
  { exists 0%nat, []. rewrite Hst, app_nil_r. repeat constructor. }
  destruct err as [e|]; [exact Hnone|].
  destruct (AttributesResponse_Err response) as [e|]; [exact Hnone|].
  destruct (walk_invariant walker (Attributes response) st)
    as (n & calls & Hcalls & Hdecs & Hnil).
  exists n, calls. rewrite Hcalls, Hst. repeat split; assumption.
Qed.

(** X3. Apart from invoking the walker, a walk writes one log line and
    makes one call, in this order, and nothing else: it reads no file, it
    converts nothing, and it does not call the host a second time, however
    the first call ended. *)
Theorem WalkResourceAttributes_own_actions resource attributeName walker
    (s : State) :
  own_actions
    (trace (final (WalkResourceAttributes resource attributeName walker s)))
  = own_actions (trace s) ++
      [Logged ("[DEBUG] Walk `" ++ resource ++ ".*." ++ attributeName
               ++ "` attribute")%string;
       Called "Plugin.Attributes"
         (AttributesArgs {| Resource := resource;
                            AttributeName := attributeName |})].
Proof.
  destruct (Plugin_Attributes
              {| Resource := resource; AttributeName := attributeName |}
              (host (world s))) as [[err response] h] eqn:Hcall.
  rewrite (WalkResourceAttributes_cases _ _ walker s _ response h Hcall).
  destruct err as [e|]; [simpl; now rewrite own_actions_app|].
  destruct (AttributesResponse_Err response) as [e|];
    [simpl; now rewrite own_actions_app|].
  rewrite walk_own_actions. simpl. now rewrite own_actions_app.
Qed.


(** X5. A panic of the walker is not caught.  The response carries no
    error and all its attributes decode; [calls] are the walker itself
    applied to the decoded attributes one after the other, starting in the
    world the call to the host left.  If invocation number k+1 of the
    walker panics, there are exactly k+1 invocations, on the first k+1
    attributes in order, and the walk panics with the same value. *)
Theorem WalkResourceAttributes_walker_panic resource attributeName walker
    (s : State) response h attrs :
  Plugin_Attributes {| Resource := resource; AttributeName := attributeName |}
    (host (world s)) = (None, response, h) ->
  AttributesResponse_Err response = None ->
  Forall2 decodes_to (Attributes response) attrs ->
  let w0 := {| files := files (world s); host := h;
               memory := memory (world s) |} in
  exists calls,
    walker_calls
      (trace (final (WalkResourceAttributes resource attributeName walker s)))
    = walker_calls (trace s) ++ calls
    /\ calls = invocations walker attrs w0
    /\ (forall k attr v,
        nth_error calls k = Some (attr, Panics v) ->
        List.length calls = S k
        /\ map fst calls = firstn (S k) attrs
        /\ exists s',
            WalkResourceAttributes resource attributeName walker s
            = Panicked v s').
Proof.
  intros Hcall Herr Hdec w0.
  rewrite (WalkResourceAttributes_run _ _ walker s response h Hcall), Herr.
  match goal with |- context [walk walker _ ?s0] => set (st := s0) end.
  assert (Hst : walker_calls (trace st) = walker_calls (trace s)).
  { unfold st; simpl. rewrite walker_calls_app. simpl. apply app_nil_r. }
  pose proof (walk_invocations walker _ _ Hdec st) as Hinv.
  change (world st) with w0 in Hinv. rewrite Hst in Hinv.
  exists (invocations walker attrs w0).
  split; [exact Hinv|]. split; [reflexivity|].
  destruct (walk_prefix walker _ _ Hdec [] st)
    as [(s1 & Hwalk & Hcalls)
       |(visited & a & later & c & -> & Hc & Hcalls & Hend)];
    rewrite app_nil_r in *.
  - rewrite Hwalk in *. simpl in Hinv.
    rewrite Hcalls, Hst in Hinv. apply app_inv_head in Hinv.
    rewrite <- Hinv.
    intros k attr v Hk. apply passed_not_failed in Hk. discriminate.
  - rewrite Hcalls, Hst in Hinv. apply app_inv_head in Hinv.
    rewrite <- Hinv.
    intros k attr v Hk.
    destruct (Nat.lt_total k (List.length (map passed visited)))
      as [Hlt|[Heq|Hgt]].
    + rewrite nth_error_app1 in Hk by exact Hlt.
      apply passed_not_failed in Hk. discriminate.
    + subst k. rewrite nth_error_app2, Nat.sub_diag in Hk by lia.
      simpl in Hk. inversion Hk; subst.
      rewrite length_app, length_map, map_app, map_fst_passed. simpl.
      repeat split; [lia| |exact Hend].
      symmetry. apply firstn_through.
    + rewrite nth_error_app2 in Hk by lia.
      destruct (k - List.length (map passed visited))%nat as [|[|j]] eqn:E;
        simpl in Hk; [lia|discriminate|discriminate].
Qed.

(** X6. The loop over a list cut in two is the loop over the first part
    followed, if that returned nil, by the loop over the second part; an
    error or a panic in the first part is the result, and the second part
    is not touched. *)
Theorem walk_app walker (before after : list Attribute) (s : State) :
  walk walker (before ++ after) s
  = (err <- walk walker before ;;
     match err with
     | Some e => ret (Some e)
     | None => walk walker after
     end) s.
Proof.
  revert s. induction before as [|attribute rest IH]; intros s; [reflexivity|].
  destruct (parseExpression_cases (Attribute_Expr attribute)
              (hcl.Filename (Attribute_ExprRange attribute))
              (hcl.Start (Attribute_ExprRange attribute)))
    as [[[expr diags] Hdec]|Hpanic].
  - destruct (hcl.HasErrors diags) eqn:Herr.
    + rewrite <- app_comm_cons. unfold bind at 1.
      now rewrite !(walk_cons_failed walker attribute _ s expr diags (Hdec s) Herr).
    + set (attr := {| hcl_Name := Attribute_Name attribute;
                      hcl_Expr := expr;
                      hcl_Range := Attribute_Range attribute;
                      hcl_NameRange := Attribute_NameRange attribute |}).
      assert (Hto : decodes_to attribute attr)
        by (exists expr, diags; repeat split; assumption).
      rewrite <- app_comm_cons. unfold bind at 1.
      rewrite !(walk_cons_decoded walker attribute attr _ s Hto).
      destruct (walker attr (world s)) as [[[e|]|v] w]; try reflexivity.
      rewrite IH. reflexivity.
  - rewrite <- app_comm_cons. unfold bind at 1.
    now rewrite !(walk_cons_unexpected walker attribute _ s Hpanic).
Qed.

(** The loop and [visit_all] agree on the world, when everything decodes. *)
Lemma walk_visit_all walker attributes attrs :
  Forall2 decodes_to attributes attrs ->
  forall s : State,
    ends_as (fst (visit_all walker attrs (world s))) (walk walker attributes s)
    /\ world (final (walk walker attributes s))
       = snd (visit_all walker attrs (world s)).
Proof.
  induction 1 as [|attribute attr attributes attrs Hdec _ IH]; intros s.
  - simpl. split; [now eexists|reflexivity].
  - rewrite (walk_cons_decoded _ _ _ _ _ Hdec). simpl.
    destruct (walker attr (world s)) as [[[e|]|v] w]; simpl.
    + split; [now eexists|reflexivity].
    + apply (IH {| world := w;
                   trace := trace s ++ [WalkerCalled attr (Returns None)] |}).
    + split; [now eexists|reflexivity].
Qed.

(** X7. Between two invocations of the walker the client leaves the world
    alone.  When the response carries no error and its attributes decode,
    the walk ends as, and leaves the world as, the invocations of the
    walker on the decoded attributes one after the other do, started in the
    world the call to the host left. *)
Theorem WalkResourceAttributes_world resource attributeName walker
    (s : State) response h attrs :
  Plugin_Attributes {| Resource := resource; AttributeName := attributeName |}
    (host (world s)) = (None, response, h) ->
  AttributesResponse_Err response = None ->
  Forall2 decodes_to (Attributes response) attrs ->
  let w0 := {| files := files (world s); host := h;
               memory := memory (world s) |} in
  ends_as (fst (visit_all walker attrs w0))
    (WalkResourceAttributes resource attributeName walker s)
  /\ world (final (WalkResourceAttributes resource attributeName walker s))
     = snd (visit_all walker attrs w0).
Proof.
  intros Hcall Herr Hdec w0.
  rewrite (WalkResourceAttributes_run _ _ walker s response h Hcall), Herr.
  match goal with |- context [walk walker _ ?s0] => set (st := s0) end.
  exact (walk_visit_all walker _ _ Hdec st).
Qed.

(** A loop that returns nil has decoded and visited everything. *)
Lemma walk_nil walker : forall attributes (s s' : State),
  walk walker attributes s = Returned None s' ->
  exists attrs,
    Forall2 decodes_to attributes attrs
    /\ walker_calls (trace s') = walker_calls (trace s) ++ map passed attrs.
Proof.
  induction attributes as [|attribute rest IH]; intros s s' Hnil.
  { inversion Hnil; subst. exists []. simpl. rewrite app_nil_r.
    split; [constructor|reflexivity]. }
  destruct (parseExpression_cases (Attribute_Expr attribute)
              (hcl.Filename (Attribute_ExprRange attribute))
              (hcl.Start (Attribute_ExprRange attribute)))
    as [[[expr diags] Hdec]|Hpanic].
  - destruct (hcl.HasErrors diags) eqn:Herr.
    { rewrite (walk_cons_failed walker attribute rest s expr diags (Hdec s) Herr)
        in Hnil. discriminate. }
    set (attr := {| hcl_Name := Attribute_Name attribute;
                    hcl_Expr := expr;
                    hcl_Range := Attribute_Range attribute;
                    hcl_NameRange := Attribute_NameRange attribute |}).
    assert (Hto : decodes_to attribute attr)
      by (exists expr, diags; repeat split; assumption).
    rewrite (walk_cons_decoded walker attribute attr rest s Hto) in Hnil.
    destruct (walker attr (world s)) as [[[e|]|v] w]; try discriminate.
    destruct (IH _ _ Hnil) as (attrs & Hdecs & Hcalls).
    exists (attr :: attrs). split; [constructor; assumption|].
    rewrite Hcalls. simpl. rewrite walker_calls_app, <- app_assoc.
    reflexivity.
  - rewrite (walk_cons_unexpected walker attribute rest s Hpanic) in Hnil.
    discriminate.
Qed.

(** X16. A walk that returns nil is complete: the call returned nil, the
    response carried no error, every attribute of the response decoded
    without error diagnostics, and the walker was invoked on each of them,
    in order, and returned nil each time: the walker itself, applied to
    the decoded attributes one after the other from the world the call
    left, gives nil on every one of them, and these are the invocations
    the walk made. *)
Theorem WalkResourceAttributes_nil_complete resource attributeName walker
    (s s' : State) err response h :
  Plugin_Attributes {| Resource := resource; AttributeName := attributeName |}
    (host (world s)) = (err, response, h) ->
  WalkResourceAttributes resource attributeName walker s = Returned None s' ->
  err = None
  /\ AttributesResponse_Err response = None
  /\ exists attrs,
      Forall2 decodes_to (Attributes response) attrs
      /\ walker_calls (trace s') = walker_calls (trace s) ++ map passed attrs
      /\ invocations walker attrs
           {| files := files (world s); host := h;
              memory := memory (world s) |}
         = map passed attrs.
Proof.
  intros Hcall Hnil.
  rewrite (WalkResourceAttributes_cases _ _ walker s _ response h Hcall) in Hnil.
  destruct err as [e|]; [discriminate|].
  destruct (AttributesResponse_Err response) as [e|]; [discriminate|].
  repeat split.
  destruct (walk_nil walker _ _ _ Hnil) as (attrs & Hdecs & Hcalls).
  pose proof (walk_invocations walker _ _ Hdecs
                {| world := {| files := files (world s); host := h;
                               memory := memory (world s) |};
                   trace := trace s ++
                     [Logged ("[DEBUG] Walk `" ++ resource ++ ".*."
                              ++ attributeName ++ "` attribute")%string;
                      Called "Plugin.Attributes"
                        (AttributesArgs
                           {| Resource := resource;
                              AttributeName := attributeName |})] |})
    as Hinv.
  rewrite Hnil in Hinv. simpl in Hinv.
  rewrite Hcalls in Hinv. simpl in Hinv. apply app_inv_head in Hinv.
  exists attrs. split; [exact Hdecs|]. split; [|now symmetry].
  rewrite Hcalls. simpl. rewrite walker_calls_app. simpl.
  now rewrite app_nil_r.
Qed.

End MoreWalkProperties.

Section MoreClientProperties.

Context {T : Types} {X : External}.

(** ** EvaluateExpr, stage by stage *)

(** What [EvaluateExpr] does once the file is read, for every answer of
    the host and every result of the conversion. *)
Lemma EvaluateExpr_cases (expr : Expression) (ret_ : Dest) (s : State)
    src err response h cerr m :
  let range := Expression_Range expr in
  let req :=
    {| EvalExprRequest_Expr := hcl.SliceBytes range src;
       EvalExprRequest_ExprRange := range;
       Ret := ret_ |} in
  let called (mem : Memory) (more : list Event) :=
    {| world := {| files := files (world s); host := h; memory := mem |};
       trace := trace s ++ FileRead (hcl.Filename range)
                :: Called "Plugin.EvalExpr" (EvalExprArgs req) :: more |} in
  let mismatch (cause : error) :=
    mkError TypeMismatchError ErrorLevel
      ("Invalid type expression in " ++ hcl.Filename range ++ ":"
       ++ itoa (hcl.Line (hcl.Start range)))%string
      (Some cause) in
  files (world s) (hcl.Filename range) = inl src ->
  Plugin_EvalExpr req (host (world s)) = (err, response, h) ->
  gocty_FromCtyValue (Val response) ret_ (memory (world s)) = (cerr, m) ->
  EvaluateExpr expr ret_ s
  = match err with
    | Some e => Returned (Some e) (called (memory (world s)) [])
    | None =>
        match EvalExprResponse_Err response with
        | Some e => Returned (Some e) (called (memory (world s)) [])
        | None =>
            match cerr with
            | Some cause =>
                Returned (Some (ErrorPointer (Some (mismatch cause))))
                  (called m [Converted (Val response) ret_;
                             Logged ("[ERROR] " ++ Error_Error (mismatch cause))])
            | None => Returned None (called m [Converted (Val response) ret_])
            end
        end
    end.
Proof.
  intros range req called mismatch Hread Hcall Hconv.
  unfold EvaluateExpr, bind, ioutil_ReadFile, rpcClient_Call, FromCtyValue,
    log_Printf, emit.
  fold range. rewrite Hread. simpl. fold req. rewrite Hcall. simpl.
  destruct err as [e|].
  { unfold called, record; simpl. now rewrite <- app_assoc. }
  destruct (EvalExprResponse_Err response) as [e|].
  { unfold called, record; simpl. now rewrite <- app_assoc. }
  simpl. rewrite Hconv.
  destruct cerr as [cause|]; unfold called, record; simpl;
    now rewrite <- !app_assoc.
Qed.

(** X8. An error of the call, or else an error reported in the response,
    is returned as it is and ends the evaluation before the conversion:
    nothing is converted, and the plugin's memory, the destination
    included, is as it was. *)
Theorem EvaluateExpr_errors_before_conversion (expr : Expression) (ret_ : Dest)
    (s : State) src err response h e :
  let range := Expression_Range expr in
  let req :=
    {| EvalExprRequest_Expr := hcl.SliceBytes range src;
       EvalExprRequest_ExprRange := range;
       Ret := ret_ |} in
  files (world s) (hcl.Filename range) = inl src ->
  Plugin_EvalExpr req (host (world s)) = (err, response, h) ->
  err = Some e \/ (err = None /\ EvalExprResponse_Err response = Some e) ->
  EvaluateExpr expr ret_ s
  = Returned (Some e)
      {| world := {| files := files (world s); host := h;
                     memory := memory (world s) |};
         trace := trace s ++ [FileRead (hcl.Filename range);
                              Called "Plugin.EvalExpr" (EvalExprArgs req)] |}
  /\ conversions (trace (final (EvaluateExpr expr ret_ s)))
     = conversions (trace s).
Proof.
  intros range req Hread Hcall Herr.
  destruct (gocty_FromCtyValue (Val response) ret_ (memory (world s)))
    as [cerr m] eqn:Hconv.
  rewrite (EvaluateExpr_cases expr ret_ s src err response h cerr m
             Hread Hcall Hconv).
  assert (Hc : forall t : list Event,
             conversions (t ++ [FileRead (hcl.Filename range);
                                Called "Plugin.EvalExpr" (EvalExprArgs req)])
             = conversions t)
    by (intros t; rewrite conversions_app; simpl; apply app_nil_r).
  destruct Herr as [->|[-> ->]]; (split; [reflexivity|apply Hc]).
Qed.

(** X9. [EvaluateExpr] returns nil in one case only: the file was read,
    the call returned nil, the response carried no error and the
    conversion succeeded.  The memory is then what the conversion wrote,
    and no line was logged. *)
Theorem EvaluateExpr_nil_iff (expr : Expression) (ret_ : Dest) (s s' : State) :
  let range := Expression_Range expr in
  EvaluateExpr expr ret_ s = Returned None s'
  <-> exists src response h m,
        files (world s) (hcl.Filename range) = inl src
        /\ Plugin_EvalExpr
             {| EvalExprRequest_Expr := hcl.SliceBytes range src;
                EvalExprRequest_ExprRange := range;
                Ret := ret_ |} (host (world s)) = (None, response, h)
        /\ EvalExprResponse_Err response = None
        /\ gocty_FromCtyValue (Val response) ret_ (memory (world s)) = (None, m)
        /\ s' = {| world := {| files := files (world s); host := h;
                               memory := m |};
                   trace := trace s ++
                     [FileRead (hcl.Filename range);
                      Called "Plugin.EvalExpr"
                        (EvalExprArgs
                           {| EvalExprRequest_Expr := hcl.SliceBytes range src;
                              EvalExprRequest_ExprRange := range;
                              Ret := ret_ |});
                      Converted (Val response) ret_] |}.
Proof.
  intros range. split.
  - intros Hnil.
    destruct (files (world s) (hcl.Filename range)) as [src|e] eqn:Hread.
    2:{ rewrite (EvaluateExpr_unreadable expr ret_ s e Hread) in Hnil.
        discriminate. }
    destruct (Plugin_EvalExpr
                {| EvalExprRequest_Expr := hcl.SliceBytes range src;
                   EvalExprRequest_ExprRange := range;
                   Ret := ret_ |} (host (world s)))
      as [[err response] h] eqn:Hcall.
    destruct (gocty_FromCtyValue (Val response) ret_ (memory (world s)))
      as [cerr m] eqn:Hconv.
    rewrite (EvaluateExpr_cases expr ret_ s src err response h cerr m
               Hread Hcall Hconv) in Hnil.
    destruct err as [e|]; [discriminate|].
    destruct (EvalExprResponse_Err response) as [e|] eqn:Herr; [discriminate|].
    destruct cerr as [cause|]; [discriminate|].
    inversion Hnil; subst s'.
    exists src, response, h, m. repeat split; assumption.
  - intros (src & response & h & m & Hread & Hcall & Herr & Hconv & ->).
    rewrite (EvaluateExpr_cases expr ret_ s src None response h None m
               Hread Hcall Hconv), Herr.
    reflexivity.
Qed.

(** X10. Neither operation tries twice.  [EvaluateExpr] and [EmitIssue]
    read one file, the one the expression's range names, and send one
    request if the read succeeded and none if it failed, whatever the host
    answers. *)
Theorem one_read_one_request (expr : Expression) (s : State) :
  let range := Expression_Range expr in
  (forall ret_,
      file_reads (trace (final (EvaluateExpr expr ret_ s)))
      = file_reads (trace s) ++ [hcl.Filename range]
      /\ requests (trace (final (EvaluateExpr expr ret_ s)))
         = requests (trace s) ++
           match files (world s) (hcl.Filename range) with
           | inl src =>
               [("Plugin.EvalExpr",
                 EvalExprArgs
                   {| EvalExprRequest_Expr := hcl.SliceBytes range src;
                      EvalExprRequest_ExprRange := range;
                      Ret := ret_ |})]
           | inr _ => []
           end)
  /\ (forall rule message location,
      file_reads (trace (final (EmitIssue rule message location
                                  {| Metadata_Expr := expr |} s)))
      = file_reads (trace s) ++ [hcl.Filename range]
      /\ requests (trace (final (EmitIssue rule message location
                                   {| Metadata_Expr := expr |} s)))
         = requests (trace s) ++
           match files (world s) (hcl.Filename range) with
           | inl src =>
               [("Plugin.EmitIssue",
                 EmitIssueArgs
                   {| EmitIssueRequest_Rule := newObjectFromRule rule;
                      EmitIssueRequest_Message := message;
                      EmitIssueRequest_Location := location;
                      EmitIssueRequest_Expr := hcl.SliceBytes range src;
                      EmitIssueRequest_ExprRange := range |})]
           | inr _ => []
           end).
Proof.
  intros range. split.
  - intros ret_.
    destruct (files (world s) (hcl.Filename range)) as [src|e] eqn:Hread.
    + destruct (Plugin_EvalExpr
                  {| EvalExprRequest_Expr := hcl.SliceBytes range src;
                     EvalExprRequest_ExprRange := range;
                     Ret := ret_ |} (host (world s)))
        as [[err response] h] eqn:Hcall.
      destruct (gocty_FromCtyValue (Val response) ret_ (memory (world s)))
        as [cerr m] eqn:Hconv.
      rewrite (EvaluateExpr_cases expr ret_ s src err response h cerr m
                 Hread Hcall Hconv).
      destruct err as [e|];
        [|destruct (EvalExprResponse_Err response) as [e|];
          [|destruct cerr as [cause|]]];
        simpl; rewrite file_reads_app, requests_app; split; reflexivity.
    + rewrite (EvaluateExpr_unreadable expr ret_ s e Hread). simpl.
      rewrite file_reads_app, requests_app. simpl.
      now rewrite app_nil_r.
  - intros rule message location.
    destruct (files (world s) (hcl.Filename range)) as [src|e] eqn:Hread.
    + destruct (Plugin_EmitIssue
                  {| EmitIssueRequest_Rule := newObjectFromRule rule;
                     EmitIssueRequest_Message := message;
                     EmitIssueRequest_Location := location;
                     EmitIssueRequest_Expr := hcl.SliceBytes range src;
                     EmitIssueRequest_ExprRange := range |}
                  (host (world s))) as [[err reply] h] eqn:Hcall.
      rewrite (EmitIssue_run rule message location {| Metadata_Expr := expr |}
                 s src err reply h Hread Hcall).
      simpl. rewrite file_reads_app, requests_app. split; reflexivity.
    + rewrite (EmitIssue_unreadable rule message location
                 {| Metadata_Expr := expr |} s e Hread). simpl.
      rewrite file_reads_app, requests_app. simpl.
      now rewrite app_nil_r.
Qed.

(** X15. [EmitIssue] returns nil in one case only: the file was read and
    the call returned nil.  All it has done then is read the file and send
    the request; the memory of the plugin is as it was. *)
Theorem EmitIssue_nil_iff rule message location (meta : Metadata)
    (s s' : State) :
  let range := Expression_Range (Metadata_Expr meta) in
  EmitIssue rule message location meta s = Returned None s'
  <-> exists src reply h,
        files (world s) (hcl.Filename range) = inl src
        /\ Plugin_EmitIssue
             {| EmitIssueRequest_Rule := newObjectFromRule rule;
                EmitIssueRequest_Message := message;
                EmitIssueRequest_Location := location;
                EmitIssueRequest_Expr := hcl.SliceBytes range src;
                EmitIssueRequest_ExprRange := range |} (host (world s))
           = (None, reply, h)
        /\ s' = {| world := {| files := files (world s); host := h;
                               memory := memory (world s) |};
                   trace := trace s ++
                     [FileRead (hcl.Filename range);
                      Called "Plugin.EmitIssue"
                        (EmitIssueArgs
                           {| EmitIssueRequest_Rule := newObjectFromRule rule;
                              EmitIssueRequest_Message := message;
                              EmitIssueRequest_Location := location;
                              EmitIssueRequest_Expr := hcl.SliceBytes range src;
                              EmitIssueRequest_ExprRange := range |})] |}.
Proof.
  intros range. split.
  - intros Hnil.
    destruct (files (world s) (hcl.Filename range)) as [src|e] eqn:Hread.
    2:{ rewrite (EmitIssue_unreadable rule message location meta s e Hread)
          in Hnil. discriminate. }
    destruct (Plugin_EmitIssue
                {| EmitIssueRequest_Rule := newObjectFromRule rule;
                   EmitIssueRequest_Message := message;
                   EmitIssueRequest_Location := location;
                   EmitIssueRequest_Expr := hcl.SliceBytes range src;
                   EmitIssueRequest_ExprRange := range |} (host (world s)))
      as [[err reply] h] eqn:Hcall.
    rewrite (EmitIssue_run rule message location meta s src err reply h
               Hread Hcall) in Hnil.
    inversion Hnil; subst.
    exists src, reply, h. repeat split; assumption.
  - intros (src & reply & h & Hread & Hcall & ->).
    exact (EmitIssue_run rule message location meta s src None reply h
             Hread Hcall).
Qed.

(** ** EnsureNoError, for every error *)

(** X11. [proc] runs if and only if [err] is nil.  With a nil [err],
    [EnsureNoError] ends the way [proc] ends, a panic included, and leaves
    the world [proc] left; with any other [err] nothing at all happens to
    the state, whether [EnsureNoError] returns or panics. *)
Theorem EnsureNoError_runs_proc_iff_nil (err : option error) (proc : Callback)
    (s : State) :
  proc_calls (trace (final (EnsureNoError err proc s)))
  = proc_calls (trace s) ++
    match err with
    | None => [fst (proc (world s))]
    | Some _ => []
    end
  /\ (err = None ->
      ends_as (fst (proc (world s))) (EnsureNoError err proc s)
      /\ world (final (EnsureNoError err proc s)) = snd (proc (world s)))
  /\ (err <> None -> final (EnsureNoError err proc s) = s).
Proof.
  destruct err as [e|].
  - assert (Hs : final (EnsureNoError (Some e) proc s) = s).
    { destruct e as [a| | |]; simpl; try reflexivity.
      destruct (Level a =? WarningLevel); [reflexivity|].
      destruct (Level a =? ErrorLevel); reflexivity. }
    rewrite Hs, app_nil_r. split; [reflexivity|]. split; [discriminate|].
    intros _. reflexivity.
  - unfold EnsureNoError, call.
    destruct (proc (world s)) as [[r|v] w]; simpl;
      rewrite proc_calls_app; simpl;
      (split; [reflexivity|]); (split; [|intros H; now elim H]);
      intros _; (split; [now eexists|reflexivity]).
Qed.

(** X12. What a non-nil [err] can lead to.  Nil is returned exactly for an
    [Error] value of warning level.  An error is returned only if it is
    [err] itself, and then [err] is not an [Error] value of warning level:
    a warning never comes back out.  A panic happens only for an [Error]
    value whose level is neither constant, with that value. *)
Theorem EnsureNoError_inversion (e : error) (proc : Callback) (s : State) :
  ((exists s', EnsureNoError (Some e) proc s = Returned None s')
   <-> exists a, e = ErrorValue a /\ Level a = WarningLevel)
  /\ (forall e' s',
      EnsureNoError (Some e) proc s = Returned (Some e') s' ->
      e' = e
      /\ forall a, e = ErrorValue a ->
                   Level a = ErrorLevel /\ Level a <> WarningLevel)
  /\ (forall v s',
      EnsureNoError (Some e) proc s = Panicked v s' ->
      v = PanicError e
      /\ exists a, e = ErrorValue a
                   /\ Level a <> WarningLevel /\ Level a <> ErrorLevel).
Proof.
  split; [split|split].
  - intros [s' H]. destruct e as [a|p|d|msg];
      unfold EnsureNoError, ret, panic in H; try discriminate.
    exists a. split; [reflexivity|].
    destruct (Z.eqb_spec (Level a) WarningLevel) as [Hw|Hw]; [exact Hw|].
    destruct (Level a =? ErrorLevel); discriminate.
  - intros (a & -> & Hw). unfold EnsureNoError, ret.
    rewrite Hw, Z.eqb_refl. now eexists.
  - intros e' s' H. destruct e as [a|p|d|msg];
      unfold EnsureNoError, ret, panic in H.
    2,3,4: inversion H; subst; split;
      [reflexivity|intros a Ha; discriminate].
    destruct (Z.eqb_spec (Level a) WarningLevel) as [Hw|Hw]; [discriminate|].
    destruct (Z.eqb_spec (Level a) ErrorLevel) as [He|He]; [|discriminate].
    inversion H; subst. split; [reflexivity|].
    intros b Hb. inversion Hb; subst. split; assumption.
  - intros v s' H. destruct e as [a|p|d|msg];
      unfold EnsureNoError, ret, panic in H; try discriminate.
    destruct (Z.eqb_spec (Level a) WarningLevel) as [Hw|Hw]; [discriminate|].
    destruct (Z.eqb_spec (Level a) ErrorLevel) as [He|He]; [discriminate|].
    inversion H; subst. split; [reflexivity|].
    exists a. repeat split; assumption.
Qed.

(** ** EvaluateExpr under EnsureNoError *)

(** X13. The usual way to use the two together.  When the evaluation
    succeeds, [proc] runs once, in the world where the conversion has
    written the destination, and how it ends is how the whole ends. *)
Theorem EnsureNoError_after_evaluation (expr : Expression) (ret_ : Dest)
    (proc : Callback) (s : State) src response h m :
  let range := Expression_Range expr in
  let w1 := {| files := files (world s); host := h; memory := m |} in
  let both := err <- EvaluateExpr expr ret_ ;; EnsureNoError err proc in
  files (world s) (hcl.Filename range) = inl src ->
  Plugin_EvalExpr
    {| EvalExprRequest_Expr := hcl.SliceBytes range src;
       EvalExprRequest_ExprRange := range;
       Ret := ret_ |} (host (world s)) = (None, response, h) ->
  EvalExprResponse_Err response = None ->
  gocty_FromCtyValue (Val response) ret_ (memory (world s)) = (None, m) ->
  ends_as (fst (proc w1)) (both s)
  /\ world (final (both s)) = snd (proc w1)
  /\ proc_calls (trace (final (both s))) = proc_calls (trace s) ++ [fst (proc w1)].
Proof.
  intros range w1 both Hread Hcall Herr Hconv.
  unfold both, bind.
  rewrite (EvaluateExpr_cases expr ret_ s src None response h None m
             Hread Hcall Hconv), Herr.
  unfold EnsureNoError, call. simpl. fold range. fold w1.
  destruct (proc w1) as [[r|v] w]; simpl;
    rewrite !proc_calls_app; simpl; rewrite app_nil_r;
    (split; [now eexists|split; reflexivity]).
Qed.

(** X14. When the host answers the evaluation with an [Error] value of
    warning level, the two together return nil: [proc] is skipped, nothing
    is converted, and the memory is as it was. *)
Theorem EnsureNoError_after_warning (expr : Expression) (ret_ : Dest)
    (proc : Callback) (s : State) src response h a :
  let range := Expression_Range expr in
  let req :=
    {| EvalExprRequest_Expr := hcl.SliceBytes range src;
       EvalExprRequest_ExprRange := range;
       Ret := ret_ |} in
  files (world s) (hcl.Filename range) = inl src ->
  Plugin_EvalExpr req (host (world s)) = (None, response, h) ->
  EvalExprResponse_Err response = Some (ErrorValue a) ->
  Level a = WarningLevel ->
  (err <- EvaluateExpr expr ret_ ;; EnsureNoError err proc) s
  = Returned None
      {| world := {| files := files (world s); host := h;
                     memory := memory (world s) |};
         trace := trace s ++ [FileRead (hcl.Filename range);
                              Called "Plugin.EvalExpr" (EvalExprArgs req)] |}.
Proof.
  intros range req Hread Hcall Herr Hlevel.
  destruct (gocty_FromCtyValue (Val response) ret_ (memory (world s)))
    as [cerr m] eqn:Hconv.
  unfold bind.
  rewrite (EvaluateExpr_cases expr ret_ s src None response h cerr m
             Hread Hcall Hconv), Herr.
  simpl. rewrite Hlevel, Z.eqb_refl. reflexivity.
Qed.

End MoreClientProperties.

(** * The statements on the concrete plugin and host *)

Section Concrete.

#[local] Existing Instance Toy.types.
#[local] Existing Instance Toy.external.

(** The bytes sent for [1 + 2] in main.tf are the text of the expression. *)
Example SliceBytes_main_tf :
  hcl.SliceBytes (Toy.count_range "main.tf") Toy.main_tf
  = list_byte_of_string "1 + 2".
Proof. reflexivity. Qed.

(** A range that runs past the end of the file is cut at the end. *)
Example SliceBytes_clamped :
  hcl.SliceBytes
    {| hcl.Filename := "main.tf";
       hcl.Start := Toy.pos 1 9 8;
       hcl.End := Toy.pos 1 40 39 |} Toy.main_tf
  = list_byte_of_string "1 + 2".
Proof. reflexivity. Qed.

Example itoa_12 : itoa 12 = "12".
Proof. reflexivity. Qed.

(** A walk over three attributes whose walker rejects the second. *)
Example walk_rejects_second :
  exists s',
    WalkResourceAttributes "aws_instance" "ami" (Toy.picky_walker "ami")
      (Toy.start_with (Toy.host_with_attributes Toy.three_attributes None))
    = Returned (Some (ForeignError "rejected")) s'
    /\ map (fun c => hcl_Name (fst c)) (walker_calls (trace s'))
       = ["instance_type"; "ami"].
Proof. eexists. split; [lazy; reflexivity | reflexivity]. Qed.

(** A host that puts an error in its reply to [EmitIssue]: the file is
    read, the call returns nil, the reply holds an [Error], and [EmitIssue]
    returns nil all the same. *)
Lemma EmitIssue_reply_error_lost :
  exists req h' s',
    EmitIssue "aws_instance_invalid_type" "invalid" (Toy.count_range "main.tf")
      Toy.meta_main (Toy.start_with Toy.reporting_host)
    = Returned None s'
    /\ requests (trace s') = [("Plugin.EmitIssue", EmitIssueArgs req)]
    /\ files (world (Toy.start_with Toy.reporting_host)) "main.tf"
       = inl Toy.main_tf
    /\ Plugin_EmitIssue req (host (world (Toy.start_with Toy.reporting_host)))
       = (None,
          error_in_interface (ErrorValue (mkError 0 0 "rule not found" None)),
          h').
Proof.
  do 3 eexists.
  split; [lazy; reflexivity|]. split; [reflexivity|]. split; reflexivity.
Qed.

Lemma EmitIssue_returns_call_error_witness :
  files (world (Toy.start_with Toy.unreachable_host)) "main.tf" = inl Toy.main_tf
  /\ exists s',
      EmitIssue "aws_instance_invalid_type" "invalid" (Toy.count_range "main.tf")
        Toy.meta_main (Toy.start_with Toy.unreachable_host)
      = Returned (Some (ForeignError "connection is shut down")) s'.
Proof.
  split; [reflexivity|].
  eapply (@EmitIssue_returns_call_error Toy.types Toy.external "aws_instance_invalid_type" "invalid"
            (Toy.count_range "main.tf") Toy.meta_main
            (Toy.start_with Toy.unreachable_host) Toy.main_tf);
    reflexivity.
Defined.

Lemma decodes_three : Forall2 decodes_to Toy.three_attributes Toy.decoded_three.
Proof.
  repeat constructor;
    (do 2 eexists; split; [intros s; reflexivity | split; reflexivity]).
Defined.

Lemma WalkResourceAttributes_visits_witness :
  (exists s',
      WalkResourceAttributes "aws_instance" "ami" (Toy.picky_walker "ami")
        (Toy.start_with (Toy.host_with_attributes Toy.three_attributes None))
      = Returned (Some (ForeignError "rejected")) s'
      /\ walker_calls (trace s')
         = [(Toy.decoded_wire "instance_type" "main.tf" "t2", Returns None);
            (Toy.decoded_wire "ami" "main.tf" "ami",
             Returns (Some (ForeignError "rejected")))])
  /\ (exists s',
      WalkResourceAttributes "aws_instance" "ami" Toy.passing_walker
        (Toy.start_with (Toy.host_with_attributes Toy.three_attributes None))
      = Returned None s'
      /\ map fst (walker_calls (trace s')) = Toy.decoded_three).
Proof.
  split.
  - destruct (@WalkResourceAttributes_visits Toy.types Toy.external
                "aws_instance" "ami" (Toy.picky_walker "ami")
                (Toy.start_with
                   (Toy.host_with_attributes Toy.three_attributes None))
                {| Attributes := Toy.three_attributes;
                   AttributesResponse_Err := None |}
                (Toy.serve "Plugin.Attributes"
                   (Toy.host_with_attributes Toy.three_attributes None))
                Toy.decoded_three eq_refl eq_refl decodes_three)
      as (calls & Htrace & Hinv & _ & Hfails).
    assert (Hcalls :
              calls
              = [(Toy.decoded_wire "instance_type" "main.tf" "t2", Returns None);
                 (Toy.decoded_wire "ami" "main.tf" "ami",
                  Returns (Some (ForeignError "rejected")))])
      by (rewrite Hinv; reflexivity).
    destruct (Hfails 1%nat (Toy.decoded_wire "ami" "main.tf" "ami")
                (ForeignError "rejected"))
      as (_ & _ & s' & Hs'); [rewrite Hcalls; reflexivity|].
    exists s'. split; [exact Hs'|].
    rewrite Hs' in Htrace. rewrite <- Hcalls. exact Htrace.
  - destruct (@WalkResourceAttributes_visits Toy.types Toy.external
                "aws_instance" "ami" Toy.passing_walker
                (Toy.start_with
                   (Toy.host_with_attributes Toy.three_attributes None))
                {| Attributes := Toy.three_attributes;
                   AttributesResponse_Err := None |}
                (Toy.serve "Plugin.Attributes"
                   (Toy.host_with_attributes Toy.three_attributes None))
                Toy.decoded_three eq_refl eq_refl decodes_three)
      as (calls & Htrace & Hinv & Hpasses & _).
    assert (Hcalls : calls = map passed Toy.decoded_three)
      by (rewrite Hinv; reflexivity).
    destruct Hpasses as (Hattrs & _ & s' & Hs');
      [rewrite Hcalls; repeat constructor|].
    exists s'. split; [exact Hs'|].
    rewrite Hs' in Htrace. rewrite <- Hattrs. f_equal. exact Htrace.
Defined.

Lemma EnsureNoError_spec_witness :
  (WarningLevel <> ErrorLevel)
  /\ EnsureNoError (Some (ErrorValue Toy.warning)) (Toy.passing_walker
       (Toy.decoded_wire "ami" "main.tf" "ami")) (Toy.start_with Toy.quiet_host)
     = Returned None (Toy.start_with Toy.quiet_host)
  /\ EnsureNoError (Some (ErrorValue Toy.blocking)) (Toy.passing_walker
       (Toy.decoded_wire "ami" "main.tf" "ami")) (Toy.start_with Toy.quiet_host)
     = Returned (Some (ErrorValue Toy.blocking)) (Toy.start_with Toy.quiet_host)
  /\ proc_calls
       (trace (final (EnsureNoError None
                        (Toy.passing_walker (Toy.decoded_wire "ami" "main.tf" "ami"))
                        (Toy.start_with Toy.quiet_host))))
     = [Returns None].
Proof.
  assert (Hne : @WarningLevel Toy.types Toy.external
                <> @ErrorLevel Toy.types Toy.external)
    by (simpl; lia).
  split; [exact Hne|].
  destruct (@EnsureNoError_spec Toy.types Toy.external
              (Toy.passing_walker (Toy.decoded_wire "ami" "main.tf" "ami"))
              (Toy.start_with Toy.quiet_host) Hne) as (Hnil & Hwarn & Hblock).
  split; [apply Hwarn; reflexivity|].
  split; [apply Hblock; reflexivity|].
  eapply Hnil. reflexivity.
Defined.

Lemma EvaluateExpr_type_mismatch_witness :
  exists err s',
    EvaluateExpr (Toy.count_expr "main.tf") false (Toy.start_with Toy.quiet_host)
    = Returned (Some (ErrorPointer (Some err))) s'
    /\ Code err = TypeMismatchError
    /\ Level err = ErrorLevel
    /\ Message err = "Invalid type expression in main.tf:1"
    /\ Cause err = Some (ForeignError "incorrect type").
Proof.
  eapply (@EvaluateExpr_type_mismatch Toy.types Toy.external (Toy.count_expr "main.tf") false
            (Toy.start_with Toy.quiet_host) Toy.main_tf);
    reflexivity.
Defined.

Lemma WalkResourceAttributes_application_error_witness :
  walker_calls
    (trace (final (WalkResourceAttributes "aws_instance" "ami"
                     Toy.passing_walker
                     (Toy.start_with
                        (Toy.host_with_attributes Toy.three_attributes
                           (Some (ErrorValue Toy.blocking)))))))
  = [].
Proof.
  eapply (@WalkResourceAttributes_application_error Toy.types Toy.external "aws_instance" "ami"
            Toy.passing_walker
            (Toy.start_with
               (Toy.host_with_attributes Toy.three_attributes
                  (Some (ErrorValue Toy.blocking)))));
    reflexivity.
Defined.

Lemma parseExpression_dispatch_witness :
  (forall stem, "README.md" <> (stem ++ ".tf")%string)
  /\ (forall stem, "README.md" <> (stem ++ ".tf.json")%string)
  /\ parseExpression (list_byte_of_string "1 + 2") "README.md" (Toy.pos 1 1 0)
       (Toy.start_with Toy.quiet_host)
     = Panicked (PanicString "Unexpected file: README.md")
         (Toy.start_with Toy.quiet_host).
Proof.
  assert (H1 : forall stem, "README.md" <> (stem ++ ".tf")%string)
    by (apply not_suffix; reflexivity).
  assert (H2 : forall stem, "README.md" <> (stem ++ ".tf.json")%string)
    by (apply not_suffix; reflexivity).
  split; [exact H1|]. split; [exact H2|].
  exact (proj2 (proj2 (@parseExpression_dispatch Toy.types Toy.external (list_byte_of_string "1 + 2")
                         (Toy.pos 1 1 0) (Toy.start_with Toy.quiet_host)))
           "README.md" H1 H2).
Defined.

Lemma EnsureNoError_unknown_level_witness :
  EnsureNoError (Some (ErrorValue Toy.broken))
    (Toy.passing_walker (Toy.decoded_wire "ami" "main.tf" "ami"))
    (Toy.start_with Toy.quiet_host)
  = Panicked (PanicError (ErrorValue Toy.broken)) (Toy.start_with Toy.quiet_host).
Proof.
  apply (@EnsureNoError_unknown_level Toy.types Toy.external Toy.broken); simpl; lia.
Defined.



Lemma EnsureNoError_pointer_witness :
  exists p s1,
    EvaluateExpr (Toy.count_expr "main.tf") false (Toy.start_with Toy.quiet_host)
    = Returned (Some (ErrorPointer p)) s1
    /\ EnsureNoError (Some (ErrorPointer p)) (fun w => (Returns None, w))
         (Toy.start_with Toy.quiet_host)
       = Returned (Some (ErrorPointer p)) (Toy.start_with Toy.quiet_host).
Proof.
  eapply (proj2 (@EnsureNoError_pointer Toy.types Toy.external (fun w => (Returns None, w))
                   (Toy.start_with Toy.quiet_host))
            (Toy.count_expr "main.tf") false (Toy.start_with Toy.quiet_host)
            Toy.main_tf);
    reflexivity.
Defined.

End Concrete.

(** * The further properties on the concrete plugin and host *)

Section MoreConcrete.

#[local] Existing Instance Toy.types.
#[local] Existing Instance Toy.external.

(** The two operations used together, on a host that evaluates [1 + 2]. *)
Example evaluation_then_proc :
  exists s',
    (err <- EvaluateExpr (Toy.count_expr "main.tf") true ;;
     EnsureNoError err Toy.reporting_proc) (Toy.start_with Toy.quiet_host)
    = Returned None s'
    /\ memory (world s') = [3]
    /\ proc_calls (trace s') = [Returns None].
Proof. eexists. split; [lazy; reflexivity | split; reflexivity]. Qed.

(** A walk whose second attribute names README.md. *)
Example walk_panics_on_readme :
  exists s',
    WalkResourceAttributes "aws_instance" "ami" Toy.passing_walker
      (Toy.start_with (Toy.host_with_attributes Toy.stray_attributes None))
    = Panicked (PanicString "Unexpected file: README.md") s'
    /\ map (fun c => hcl_Name (fst c)) (walker_calls (trace s'))
       = ["instance_type"].
Proof. eexists. split; [lazy; reflexivity | reflexivity]. Qed.

Lemma WalkResourceAttributes_transport_error_witness :
  walker_calls
    (trace (final (WalkResourceAttributes "aws_instance" "ami"
                     Toy.passing_walker (Toy.start_with Toy.confused_host))))
  = [].
Proof.
  eapply (@WalkResourceAttributes_transport_error Toy.types Toy.external
            "aws_instance" "ami" Toy.passing_walker
            (Toy.start_with Toy.confused_host));
    reflexivity.
Defined.

Lemma WalkResourceAttributes_visits_prefix_witness :
  exists n calls,
    walker_calls
      (trace (final (WalkResourceAttributes "aws_instance" "ami"
                       (Toy.picky_walker "ami")
                       (Toy.start_with
                          (Toy.host_with_attributes Toy.three_attributes None)))))
    = walker_calls
        (trace (Toy.start_with
                  (Toy.host_with_attributes Toy.three_attributes None)))
      ++ calls
    /\ Forall2 decodes_to (firstn n Toy.three_attributes) (map fst calls)
    /\ Forall (fun c => snd c = Returns None) (removelast calls).
Proof.
  apply (@WalkResourceAttributes_visits_prefix Toy.types Toy.external
           "aws_instance" "ami" (Toy.picky_walker "ami")
           (Toy.start_with (Toy.host_with_attributes Toy.three_attributes None))
           None
           {| Attributes := Toy.three_attributes;
              AttributesResponse_Err := None |}
           (Toy.serve "Plugin.Attributes"
              (Toy.host_with_attributes Toy.three_attributes None))).
  reflexivity.
Defined.


Lemma WalkResourceAttributes_walker_panic_witness :
  exists s',
    WalkResourceAttributes "aws_instance" "ami" (Toy.panicking_walker "ami")
      (Toy.start_with (Toy.host_with_attributes Toy.three_attributes None))
    = Panicked (PanicString "index out of range") s'
    /\ walker_calls (trace s')
       = [(Toy.decoded_wire "instance_type" "main.tf" "t2", Returns None);
          (Toy.decoded_wire "ami" "main.tf" "ami",
           Panics (PanicString "index out of range"))].
Proof.
  destruct (@WalkResourceAttributes_walker_panic Toy.types Toy.external
              "aws_instance" "ami" (Toy.panicking_walker "ami")
              (Toy.start_with
                 (Toy.host_with_attributes Toy.three_attributes None))
              {| Attributes := Toy.three_attributes;
                 AttributesResponse_Err := None |}
              (Toy.serve "Plugin.Attributes"
                 (Toy.host_with_attributes Toy.three_attributes None))
              Toy.decoded_three eq_refl eq_refl decodes_three)
    as (calls & Htrace & Hinv & Hpanics).
  assert (Hcalls :
            calls
            = [(Toy.decoded_wire "instance_type" "main.tf" "t2", Returns None);
               (Toy.decoded_wire "ami" "main.tf" "ami",
                Panics (PanicString "index out of range"))])
    by (rewrite Hinv; reflexivity).
  destruct (Hpanics 1%nat (Toy.decoded_wire "ami" "main.tf" "ami")
              (PanicString "index out of range"))
    as (_ & _ & s' & Hs'); [rewrite Hcalls; reflexivity|].
  exists s'. split; [exact Hs'|].
  rewrite Hs' in Htrace. rewrite <- Hcalls. exact Htrace.
Defined.

Lemma WalkResourceAttributes_world_witness :
  memory
    (world (final (WalkResourceAttributes "aws_instance" "ami"
                     Toy.passing_walker
                     (Toy.start_with
                        (Toy.host_with_attributes Toy.three_attributes None)))))
  = [1; 1; 1].
Proof.
  pose proof (@WalkResourceAttributes_world Toy.types Toy.external
                "aws_instance" "ami" Toy.passing_walker
                (Toy.start_with
                   (Toy.host_with_attributes Toy.three_attributes None))
                {| Attributes := Toy.three_attributes;
                   AttributesResponse_Err := None |}
                (Toy.serve "Plugin.Attributes"
                   (Toy.host_with_attributes Toy.three_attributes None))
                Toy.decoded_three eq_refl eq_refl decodes_three) as [_ Hworld].
  rewrite Hworld. reflexivity.
Defined.

Lemma EvaluateExpr_errors_before_conversion_witness :
  EvaluateExpr (Toy.count_expr "main.tf") true (Toy.start_with Toy.warning_host)
  = Returned (Some (ErrorValue Toy.warning))
      {| world := {| files := Toy.disk;
                     host := Toy.serve "Plugin.EvalExpr" Toy.warning_host;
                     memory := [] |};
         trace := [FileRead "main.tf";
                   Called "Plugin.EvalExpr"
                     (EvalExprArgs
                        {| EvalExprRequest_Expr := list_byte_of_string "1 + 2";
                           EvalExprRequest_ExprRange := Toy.count_range "main.tf";
                           Ret := true |})] |}.
Proof.
  eapply (@EvaluateExpr_errors_before_conversion Toy.types Toy.external
            (Toy.count_expr "main.tf") true (Toy.start_with Toy.warning_host)
            Toy.main_tf None
            (@mkEvalExprResponse Toy.types 0 (Some (ErrorValue Toy.warning)))
            (Toy.serve "Plugin.EvalExpr" Toy.warning_host)
            (ErrorValue Toy.warning)).
  - reflexivity.
  - reflexivity.
  - right. split; reflexivity.
Defined.

Lemma EnsureNoError_runs_proc_iff_nil_witness :
  final (EnsureNoError (Some (ForeignError "connection is shut down"))
           Toy.reporting_proc (Toy.start_with Toy.quiet_host))
  = Toy.start_with Toy.quiet_host.
Proof.
  apply (@EnsureNoError_runs_proc_iff_nil Toy.types Toy.external
           (Some (ForeignError "connection is shut down")) Toy.reporting_proc
           (Toy.start_with Toy.quiet_host)).
  discriminate.
Defined.

Lemma EnsureNoError_inversion_witness :
  Level Toy.warning = WarningLevel
  /\ exists s',
      EnsureNoError (Some (ErrorValue Toy.warning)) Toy.reporting_proc
        (Toy.start_with Toy.quiet_host)
      = Returned None s'.
Proof.
  split; [reflexivity|].
  apply (proj1 (@EnsureNoError_inversion Toy.types Toy.external
                  (ErrorValue Toy.warning) Toy.reporting_proc
                  (Toy.start_with Toy.quiet_host))).
  exists Toy.warning. split; reflexivity.
Defined.

Lemma EnsureNoError_after_evaluation_witness :
  proc_calls
    (trace (final ((err <- EvaluateExpr (Toy.count_expr "main.tf") true ;;
                    EnsureNoError err Toy.reporting_proc)
                     (Toy.start_with Toy.quiet_host))))
  = [Returns None].
Proof.
  eapply (@EnsureNoError_after_evaluation Toy.types Toy.external
            (Toy.count_expr "main.tf") true Toy.reporting_proc
            (Toy.start_with Toy.quiet_host) Toy.main_tf
            (@mkEvalExprResponse Toy.types 3 None)
            (Toy.serve "Plugin.EvalExpr" Toy.quiet_host) [3]);
    reflexivity.
Defined.

Lemma EnsureNoError_after_warning_witness :
  exists s',
    (err <- EvaluateExpr (Toy.count_expr "main.tf") true ;;
     EnsureNoError err Toy.reporting_proc) (Toy.start_with Toy.warning_host)
    = Returned None s'
    /\ memory (world s') = []
    /\ proc_calls (trace s') = [].
Proof.
  eexists. split; [|split].
  - eapply (@EnsureNoError_after_warning Toy.types Toy.external
              (Toy.count_expr "main.tf") true Toy.reporting_proc
              (Toy.start_with Toy.warning_host) Toy.main_tf
              (@mkEvalExprResponse Toy.types 0 (Some (ErrorValue Toy.warning)))
              (Toy.serve "Plugin.EvalExpr" Toy.warning_host) Toy.warning);
      reflexivity.
  - reflexivity.
  - reflexivity.
Defined.

Lemma WalkResourceAttributes_nil_complete_witness :
  exists attrs,
    Forall2 decodes_to Toy.three_attributes attrs
    /\ walker_calls
         (trace (final (WalkResourceAttributes "aws_instance" "ami"
                          Toy.passing_walker
                          (Toy.start_with
                             (Toy.host_with_attributes
                                Toy.three_attributes None)))))
       = map passed attrs
    /\ invocations Toy.passing_walker attrs
         {| files := Toy.disk;
            host := Toy.serve "Plugin.Attributes"
                      (Toy.host_with_attributes Toy.three_attributes None);
            memory := [] |}
       = map passed attrs.
Proof.
  assert (Hnil :
            WalkResourceAttributes "aws_instance" "ami" Toy.passing_walker
              (Toy.start_with
                 (Toy.host_with_attributes Toy.three_attributes None))
            = Returned None
                (final (WalkResourceAttributes "aws_instance" "ami"
                          Toy.passing_walker
                          (Toy.start_with
                             (Toy.host_with_attributes
                                Toy.three_attributes None)))))
    by (lazy; reflexivity).
  destruct (@WalkResourceAttributes_nil_complete Toy.types Toy.external
              "aws_instance" "ami" Toy.passing_walker
              (Toy.start_with
                 (Toy.host_with_attributes Toy.three_attributes None))
              _ None
              {| Attributes := Toy.three_attributes;
                 AttributesResponse_Err := None |}
              (Toy.serve "Plugin.Attributes"
                 (Toy.host_with_attributes Toy.three_attributes None))
              eq_refl Hnil) as (_ & _ & attrs & Hdecs & Hcalls & Hinv).
  exists attrs. split; [exact Hdecs|]. split; [exact Hcalls|exact Hinv].
Defined.

End MoreConcrete.
